(** * BaseObject: readiness poller and screenshot composer

    A shallow embedding of the page-object base class [BaseObject]
    (selector table, load selectors, [waitForElements] / [waitUntil],
    [getFrame], [capture]) together with the properties its
    specification states about it.

    The driver adapter, the wall clock, the image codec and the file-name
    sanitizer are collaborators that live outside the class; they appear
    here as parameters of the definitions. *)

From Stdlib Require Import ZArith Ascii String List Bool Lia Permutation.
From stdpp Require Import base option gmap strings pretty.
Import ListNotations.

Local Open Scope string_scope.
Local Open Scope Z_scope.
Local Set Warnings "-register-all".

(** ** JavaScript values, as far as the class inspects them *)

Module Js.

(** The values a predicate handed to [waitUntil] may return.  An object
    is the list of its own properties; a function is opaque. *)
Inductive JsValue : Type :=
| JUndefined
| JNull
| JBool (b : bool)
| JNumber (n : Z)
| JString (s : string)
| JFunction
| JObject (props : list (string * JsValue)).

(** The error objects the class creates: [new Error(message)]. *)
Inductive JsError : Type :=
| Error (message : string).

(** How a call ends: it returns a value or it throws. *)
Inductive Completion (A : Type) : Type :=
| Return (a : A)
| Throw (e : JsError).
Arguments Return {A} a.
Arguments Throw {A} e.

(** ToBoolean. *)
Definition truthy (v : JsValue) : bool :=
  match v with
  | JUndefined | JNull => false
  | JBool b => b
  | JNumber n => negb (n =? 0)
  | JString s => negb (String.eqb s "")
  | JFunction | JObject _ => true
  end.

Fixpoint own_property (props : list (string * JsValue)) (key : string) : JsValue :=
  match props with
  | [] => JUndefined
  | (k, v) :: rest => if String.eqb k key then v else own_property rest key
  end.

(** [v.key] for a value [v] that is neither [undefined] nor [null]:
    primitives and functions have no such property of their own. *)
Definition get (v : JsValue) (key : string) : JsValue :=
  match v with
  | JObject props => own_property props key
  | _ => JUndefined
  end.

(** [a && b], with [b] evaluated only when [a] is truthy. *)
Definition and_then (a : JsValue) (b : JsValue -> JsValue) : JsValue :=
  if truthy a then b a else a.

(** [x || d] for an optional integer argument: [undefined] and [0] are
    both falsy and give the default. *)
Definition or_int (x : option Z) (d : Z) : Z :=
  match x with
  | None => d
  | Some n => if n =? 0 then d else n
  end.

(** [x || d] for an optional string argument: [undefined] and the empty
    string give the default. *)
Definition or_string (x : option string) (d : string) : string :=
  match x with
  | None => d
  | Some s => if String.eqb s "" then d else s
  end.

(** [x || []] for an optional array argument. *)
Definition or_list {A : Type} (x : option (list A)) : list A :=
  match x with
  | None => []
  | Some l => l
  end.

(** [Array.prototype.join]. *)
Fixpoint join (sep : string) (l : list string) : string :=
  match l with
  | [] => ""
  | [s] => s
  | s :: rest => (s ++ sep ++ join sep rest)%string
  end.

(** The names an object literal inherits from [Object.prototype]. *)
Definition Object_prototype_names : list string :=
  ["constructor"; "toString"; "toLocaleString"; "valueOf"; "hasOwnProperty";
   "isPrototypeOf"; "propertyIsEnumerable"; "__defineGetter__"; "__defineSetter__";
   "__lookupGetter__"; "__lookupSetter__"; "__proto__"].

(** [Object.prototype[key]]: the inherited methods are functions and
    [__proto__] is [Object.prototype] itself. *)
Definition Object_prototype (key : string) : JsValue :=
  if String.eqb key "__proto__" then JObject []
  else if existsb (String.eqb key) Object_prototype_names then JFunction
  else JUndefined.

End Js.
Import Js.

(** ** Rectangles and elements *)

Record Rect : Type := mkRect { x : Z; y : Z; width : Z; height : Z }.

Definition zeroRect : Rect := {| x := 0; y := 0; width := 0; height := 0 |}.

(** A DOM element handle.  [elem_getFrame] is the element's [getFrame]
    method when the handle has one, with the rectangle it reports. *)
Record Element : Type := mkElement {
  elem_id : nat;
  elem_getFrame : option Rect
}.

(** ** The page object *)

Record BaseObject : Type := mkBaseObject {
  _context : Element;
  _loadSelectors : list string;
  _selectors : gmap string string
}.

(** The driver adapter over a world [W]: every call may read and change
    the world (the browser, the clock). *)
Record DriverAdapter (W : Type) : Type := mkAdapter {
  getElement_ : Element -> JsValue -> string -> W -> Element * W;
  getElements_ : Element -> JsValue -> string -> W -> list Element * W;
  sleep_ : Z -> W -> W;
  takeScreenshot_ : W -> list Z * W
}.
Arguments getElement_ {W} _ _ _ _ _.
Arguments getElements_ {W} _ _ _ _ _.
Arguments sleep_ {W} _ _ _.
Arguments takeScreenshot_ {W} _ _.

(** What a run of the poller does, in the order it does it. *)
Inductive Event : Type :=
| EvNow (t : Z)            (* [+new Date()] read [t] *)
| EvCall (r : JsValue)     (* the predicate was called and returned [r] *)
| EvSleep (ms : Z).        (* the adapter's [sleep(ms)] was called *)

Definition is_sleep (e : Event) : bool :=
  match e with EvSleep _ => true | _ => false end.

Module Selectors.

Definition getContext (self : BaseObject) : Element := _context self.

Definition getSelectors (self : BaseObject) : gmap string string := _selectors self.

(** [selectors[selectorName]] on a table that is an object literal: the
    entry of the table itself when it has one, and what [Object.prototype]
    has under that name otherwise. *)
Definition getSelector (self : BaseObject) (selectorName : string) : JsValue :=
  match getSelectors self !! selectorName with
  | Some s => JString s
  | None => Object_prototype selectorName
  end.

(** [!!selectors[selectorName]]. *)
Definition hasSelector (self : BaseObject) (selectorName : string) : bool :=
  let selectors := getSelectors self in
  truthy (match selectors !! selectorName with
          | Some s => JString s
          | None => Object_prototype selectorName
          end).

Definition setSelectors (self : BaseObject) (selectors : gmap string string) : BaseObject :=
  {| _context := _context self;
     _loadSelectors := _loadSelectors self;
     _selectors := selectors |}.

(** [this.hasSelector], the property itself: every [BaseObject]
    inherits the method, so reading it yields a function. *)
Definition hasSelector_property (self : BaseObject) : JsValue := JFunction.

Definition push_loadSelector (self : BaseObject) (selector : string) : BaseObject :=
  {| _context := _context self;
     _loadSelectors := _loadSelectors self ++ [selector];
     _selectors := _selectors self |}.

(** [addLoadSelector]: the guard tests [this.hasSelector], not
    [this.hasSelector(selector)]. *)
Definition addLoadSelector (self : BaseObject) (selector : string) : Completion BaseObject :=
  if negb (truthy (hasSelector_property self)) then
    Throw (Error ("Cannot add an unknown selector to the load selector list: " ++ selector)%string)
  else
    Return (push_loadSelector self selector).

(** [addLoadSelectors]: [_.each] over the names, stopping at the first throw. *)
Fixpoint addLoadSelectors (self : BaseObject) (selectors : list string) : Completion BaseObject :=
  match selectors with
  | [] => Return self
  | s :: rest =>
      match addLoadSelector self s with
      | Return self' => addLoadSelectors self' rest
      | Throw e => Throw e
      end
  end.

End Selectors.
Import Selectors.

(** ** Readiness poller *)

Module Poller.

Definition timeout_message (message : string) : string :=
  ("Waited for an event, but timed-out. Message:" ++ message)%string.

(** The [while (!fn())] loop of [waitUntil].  [fuel] bounds the number of
    times the loop condition is evaluated; [None] means the loop is still
    running when the fuel is spent.  The result carries the world the loop
    stops in and the events of the run in order. *)
Fixpoint waitUntil_loop {W : Type} (now : W -> Z) (adapter : DriverAdapter W)
    (self : BaseObject) (fn : W -> JsValue * W) (message : string)
    (startTime timeOut waitInMs : Z) (fuel : nat) (w : W)
    : option (Completion BaseObject * W * list Event) :=
  match fuel with
  | O => None
  | S fuel' =>
      let (r, w1) := fn w in
      if negb (truthy r) then
        if now w1 - startTime >=? timeOut then
          Some (Throw (Error (timeout_message message)), w1, [EvCall r; EvNow (now w1)])
        else
          match waitUntil_loop now adapter self fn message startTime timeOut waitInMs
                  fuel' (sleep_ adapter waitInMs w1) with
          | Some (c, w', tr) =>
              Some (c, w', EvCall r :: EvNow (now w1) :: EvSleep waitInMs :: tr)
          | None => None
          end
      else Some (Return self, w1, [EvCall r])
  end.

(** [waitUntil(fn, message, timeOut, waitInMs)]. *)
Definition waitUntil {W : Type} (now : W -> Z) (adapter : DriverAdapter W)
    (self : BaseObject) (fn : W -> JsValue * W) (message : string)
    (timeOut waitInMs : option Z) (fuel : nat) (w : W)
    : option (Completion BaseObject * W * list Event) :=
  let startTime := now w in
  let timeOut := or_int timeOut 10000 in
  let waitInMs := or_int waitInMs 500 in
  let (result, w0) := fn w in
  if truthy (and_then result (fun r => get r "then")) then
    (* TODO: Make it "Promise safe" *)
    Some (Return self, w0, [EvNow startTime; EvCall result])
  else
    match waitUntil_loop now adapter self fn message startTime timeOut waitInMs fuel w0 with
    | Some (c, w', tr) => Some (c, w', EvNow startTime :: EvCall result :: tr)
    | None => None
    end.

Definition getElement {W : Type} (adapter : DriverAdapter W) (self : BaseObject)
    (selectorName : string) (w : W) : Element * W :=
  let context := getContext self in
  let selector := getSelector self selectorName in
  getElement_ adapter context selector "css selector" w.

Definition hasElement {W : Type} (adapter : DriverAdapter W) (self : BaseObject)
    (selectorName : string) (w : W) : bool * W :=
  let context := getContext self in
  let selector := getSelector self selectorName in
  let (elements, w') := getElements_ adapter context selector "css selector" w in
  (negb (Nat.eqb (List.length elements) 0), w').

(** The body of the [_.each] callback in [waitForElements]. *)
Definition allLoaded_each {W : Type} (adapter : DriverAdapter W) (self : BaseObject)
    (acc : bool * W) (selector : string) : bool * W :=
  let (allLoaded, w) := acc in
  if allLoaded then
    let (present, w') := hasElement adapter self selector w in
    (allLoaded && present, w')
  else (allLoaded, w).

(** The predicate [waitForElements] hands to [waitUntil]. *)
Definition allElementsLoaded {W : Type} (adapter : DriverAdapter W) (self : BaseObject)
    (selectors : list string) (w : W) : JsValue * W :=
  let (allLoaded, w') := fold_left (allLoaded_each adapter self) selectors (true, w) in
  (JBool allLoaded, w').

Definition waitForElements_message (selectors : list string) : string :=
  ("Waited for selectors '" ++ join ", " selectors ++ "'")%string.

Definition waitForElements {W : Type} (now : W -> Z) (adapter : DriverAdapter W)
    (self : BaseObject) (selectors : list string) (timeOut waitInMs : option Z)
    (fuel : nat) (w : W) : option (Completion BaseObject * W * list Event) :=
  waitUntil now adapter self (allElementsLoaded adapter self selectors)
    (waitForElements_message selectors) timeOut waitInMs fuel w.

Definition verifyIsLoaded {W : Type} (now : W -> Z) (adapter : DriverAdapter W)
    (self : BaseObject) (timeOut waitInMs : option Z) (fuel : nat) (w : W)
    : option (Completion BaseObject * W * list Event) :=
  waitForElements now adapter self (_loadSelectors self) timeOut waitInMs fuel w.

(** [getFrame(selectorName)]; [None] and the empty name are falsy and
    select the context. *)
Definition getFrame {W : Type} (adapter : DriverAdapter W) (self : BaseObject)
    (selectorName : option string) (w : W) : Rect * W :=
  let (element, w') :=
    match selectorName with
    | Some name =>
        if truthy (JString name) then getElement adapter self name w
        else (getContext self, w)
    | None => (getContext self, w)
    end in
  match elem_getFrame element with
  | Some frame => (frame, w')
  | None => ({| x := 0; y := 0; width := 0; height := 0 |}, w')
  end.

(** The shape of a run of the loop that ends in the time-out: every
    evaluation is falsy and is followed by the clock check; a check that
    does not fire is followed by one [sleep(waitInMs)] and the next
    evaluation; the check that fires ends the run. *)
Inductive timed_out_polls (startTime timeOut waitInMs : Z) : list Event -> Prop :=
| polls_fire r t :
    truthy r = false -> timeOut <= t - startTime ->
    timed_out_polls startTime timeOut waitInMs [EvCall r; EvNow t]
| polls_sleep r t rest :
    truthy r = false -> t - startTime < timeOut ->
    timed_out_polls startTime timeOut waitInMs rest ->
    timed_out_polls startTime timeOut waitInMs
      (EvCall r :: EvNow t :: EvSleep waitInMs :: rest).

(** A predicate that never returns a truthy value. *)
Definition never_truthy {W : Type} (fn : W -> JsValue * W) : Prop :=
  forall w, truthy (fst (fn w)) = false.

(** A call that takes no time on the clock [now]. *)
Definition instant {W A : Type} (now : W -> Z) (f : W -> A * W) : Prop :=
  forall w, now (snd (f w)) = now w.



(** The result [waitUntil] and [waitForElements] give when they time out
    with [message]: from [n] units of fuel on they throw the time-out error
    in the world [w'] after the events [tr]. *)
Definition times_out {W : Type}
    (run : nat -> option (Completion BaseObject * W * list Event))
    (message : string) (n : nat) (w' : W) (tr : list Event) : Prop :=
  forall fuel, (n <= fuel)%nat ->
    run fuel = Some (Throw (Error (timeout_message message)), w', tr).

End Poller.
Import Poller.

(** ** Screenshot composer *)

Module Composer.

Record Color : Type := mkColor { red : Z; green : Z; blue : Z; alpha : Z }.

(** The colour [capture] fills with: [{red: 0, green: 0, blue: 0, alpha: 255}]. *)
Definition blackOut_color : Color := {| red := 0; green := 0; blue := 0; alpha := 255 |}.

(** Whether the pixel [(i, j)] lies in the rectangle with corner [(x0, y0)]
    and size [w] by [h]. *)
Definition covers (x0 y0 w h i j : Z) : bool :=
  (x0 <=? i) && (i <? x0 + w) && (y0 <=? j) && (j <? y0 + h).

Definition in_rect (r : Rect) (i j : Z) : bool :=
  covers (x r) (y r) (width r) (height r) i j.

(** Modelled from the spec: the image codec ([pngjs-image]) is an external
    collaborator, of which the class uses [fillRect] and [clip] on a decoded
    image.  [getPixel img i j] is the pixel at column [i], row [j], and
    [None] outside the image. *)
Class PNGImage (Image : Type) : Type := {
  getPixel : Image -> Z -> Z -> option Color;
  fillRect : Z -> Z -> Z -> Z -> Color -> Image -> Image;
  clip : Z -> Z -> Z -> Z -> Image -> Image
}.

(** Modelled from the spec: [fillRect] paints exactly the pixels of the
    rectangle that the image has, and [clip] keeps the rectangle, moved to
    the origin. *)
Class PNGImageLaws (Image : Type) `{PNGImage Image} : Prop := {
  getPixel_fillRect : forall img x0 y0 w h c i j,
    getPixel (fillRect x0 y0 w h c img) i j =
    match getPixel img i j with
    | Some p => Some (if covers x0 y0 w h i j then c else p)
    | None => None
    end;
  getPixel_clip : forall img x0 y0 w h i j,
    getPixel (clip x0 y0 w h img) i j =
    if covers 0 0 w h i j then getPixel img (x0 + i) (y0 + j) else None
}.

(** Two images with the same pixels at the same places. *)
Definition pixel_identical {Image : Type} `{PNGImage Image} (a b : Image) : Prop :=
  forall i j, getPixel a i j = getPixel b i j.

(** An entry of a black-out list: a literal rectangle, or an object whose
    [getFrame()] yields one. *)
Inductive BlackOutEntry : Type :=
| Literal (r : Rect)
| Producer (getFrame_result : Rect).

(** The callback of [blackOutList.map]. *)
Definition resolve_entry (entry : BlackOutEntry) : Rect :=
  match entry with
  | Producer r => r
  | Literal r => r
  end.

(** [blackOut()]: no black-outs by default. *)
Definition blackOut (self : BaseObject) : list BlackOutEntry := [].

(** The [for] loop over [blackOutList]. *)
Definition fill_blackOuts {Image : Type} `{PNGImage Image}
    (blackOutList : list Rect) (image : Image) : Image :=
  fold_left
    (fun img r => fillRect (x r) (y r) (width r) (height r) blackOut_color img)
    blackOutList image.

(** Whether [capture] clips: [(frame.width !== 0) && (frame.height !== 0)]. *)
Definition clips (frame : Rect) : bool :=
  negb (width frame =? 0) && negb (height frame =? 0).

Definition clip_to_frame {Image : Type} `{PNGImage Image} (frame : Rect) (image : Image) : Image :=
  if clips frame then clip (x frame) (y frame) (width frame) (height frame) image
  else image.

(** What the [loadImage] callback does to the decoded image before it
    writes it: the fills, then the clip. *)
Definition compose {Image : Type} `{PNGImage Image}
    (image : Image) (blackOutList : list Rect) (frame : Rect) : Image :=
  clip_to_frame frame (fill_blackOuts blackOutList image).

(** How a call of the codec that takes a callback ends: the call itself
    throws, or it returns and the callback runs later, with an error or with
    the result. *)
Inductive Outcome (A : Type) : Type :=
| Throws (e : JsError)
| CallbackError (err : JsError)
| CallbackOk (a : A).
Arguments Throws {A} e.
Arguments CallbackError {A} err.
Arguments CallbackOk {A} a.

(** The codec's entry points that take a callback.  The callback of
    [loadImage] works on [image], the value [loadImage] returns, so it runs
    after [loadImage] has returned. *)
Record Codec (Image : Type) : Type := mkCodec {
  loadImage : list Z -> Outcome Image;
  writeImage : string -> Image -> Outcome unit
}.
Arguments loadImage {Image} _ _.
Arguments writeImage {Image} _ _ _.

Inductive PromiseState : Type :=
| Pending
| Fulfilled (value : BaseObject)
| Rejected (reason : JsError).

(** Where a [capture] ends up once no callback is left to run: the state of
    the promise it returned, the errors thrown out of callbacks with no
    handler around them, and the file written. *)
Record CaptureResult (Image : Type) : Type := mkCaptureResult {
  promise : PromiseState;
  uncaught : list JsError;
  written : option (string * Image)
}.
Arguments mkCaptureResult {Image} _ _ _.
Arguments promise {Image} _.
Arguments uncaught {Image} _.
Arguments written {Image} _.

(** The callback of [image.writeImage], called with [err]: it throws
    [err] with no handler around it, or resolves the promise. *)
Definition writeImage_callback {Image : Type} (self : BaseObject) (path : string)
    (image : Image) (err : option JsError) : CaptureResult Image :=
  match err with
  | Some e => mkCaptureResult Pending [e] None
  | None => mkCaptureResult (Fulfilled self) [] (Some (path, image))
  end.

(** The callback of [PNGImage.loadImage] once the image is decoded: the
    fills, the clip and the write.  It runs after the [try] block of the
    executor is left, so what is thrown in it is caught by nobody. *)
Definition loadImage_callback {Image : Type} `{PNGImage Image} (codec : Codec Image)
    (self : BaseObject) (path : string) (blackOutList : list Rect) (frame : Rect)
    (image : Image) : CaptureResult Image :=
  let image' := compose image blackOutList frame in
  match writeImage codec path image' with
  | Throws e => mkCaptureResult Pending [e] None
  | CallbackError e => writeImage_callback self path image' (Some e)
  | CallbackOk _ => writeImage_callback self path image' None
  end.

(** The executor of the promise:
    [try { image = PNGImage.loadImage(buffer, callback) } catch (err) { reject(err) }].
    A callback called with [err] throws it, again after the [try] block. *)
Definition capture_executor {Image : Type} `{PNGImage Image} (codec : Codec Image)
    (self : BaseObject) (buffer : list Z) (path : string)
    (blackOutList : list Rect) (frame : Rect) : CaptureResult Image :=
  match loadImage codec buffer with
  | Throws e => mkCaptureResult (Rejected e) [] None
  | CallbackError e => mkCaptureResult Pending [e] None
  | CallbackOk image => loadImage_callback codec self path blackOutList frame image
  end.

(** The static configuration: each setting is looked up on the class, then
    on [global], then in the environment. *)
Record Settings : Type := mkSettings {
  class_SCREENSHOT_PATH : option string;
  global_SCREENSHOT_PATH : option string;
  env_SCREENSHOT_PATH : option string;
  class_SCREENSHOT_PREFIX : option string;
  global_SCREENSHOT_PREFIX : option string;
  env_SCREENSHOT_PREFIX : option string
}.

Definition truthy_string (s : option string) : bool :=
  match s with
  | Some v => truthy (JString v)
  | None => truthy JUndefined
  end.

(** [a || b] on optional strings. *)
Definition or_else (a b : option string) : option string :=
  if truthy_string a then a else b.

Definition getScreenshotPath (cfg : Settings) : option string :=
  or_else (or_else (class_SCREENSHOT_PATH cfg) (global_SCREENSHOT_PATH cfg))
          (env_SCREENSHOT_PATH cfg).

Definition getScreenshotPrefix (cfg : Settings) : option string :=
  or_else (or_else (class_SCREENSHOT_PREFIX cfg) (global_SCREENSHOT_PREFIX cfg))
          (env_SCREENSHOT_PREFIX cfg).

(** The helpers [capture] takes from other packages: [utils.fileNameSafe]
    of [preceptor-core] and [path.join] of node. *)
Record Helpers : Type := mkHelpers {
  fileNameSafe : string -> string;
  nodePath_join : option string -> string -> string
}.

(** The file name [capture] computes. *)
Definition capture_fileName (helpers : Helpers) (prefix : option string)
    (title : string) (id : option string) : string :=
  let fileName :=
    (fileNameSafe helpers title ++ "_" ++ fileNameSafe helpers (or_string id "1") ++ ".png")%string in
  match prefix with
  | Some p =>
      if truthy (JString p) then (fileNameSafe helpers p ++ "_" ++ fileName)%string
      else fileName
  | None => fileName
  end.

(** [capture(title, id, wait, additionalBlackOuts)]: the world after the
    sleep, the frame lookup and the screenshot, and where the promise ends
    up. *)
Definition capture {W Image : Type} `{PNGImage Image} (adapter : DriverAdapter W)
    (codec : Codec Image) (helpers : Helpers) (cfg : Settings) (self : BaseObject)
    (title : string) (id : option string) (wait : option Z)
    (additionalBlackOuts : option (list BlackOutEntry)) (w : W)
    : CaptureResult Image * W :=
  let w1 := sleep_ adapter (or_int wait 1000) w in
  let blackOutList := (blackOut self ++ or_list additionalBlackOuts)%list in
  let blackOutList := map resolve_entry blackOutList in
  let (frame, w2) := getFrame adapter self None w1 in
  let (buffer, w3) := takeScreenshot_ adapter w2 in
  let prefix := getScreenshotPrefix cfg in
  let fileName := capture_fileName helpers prefix title id in
  let path := nodePath_join helpers (getScreenshotPath cfg) fileName in
  (capture_executor codec self buffer path blackOutList frame, w3).

(** The parts of the file name as the format has them: the sanitized
    prefix when one is configured, the sanitized title, the sanitized id,
    which is [1] when none is given. *)
Definition fileName_parts (helpers : Helpers) (prefix : option string)
    (title : string) (id : option string) : list string :=
  ((if truthy_string prefix then [fileNameSafe helpers (or_string prefix "")] else [])
   ++ [fileNameSafe helpers title; fileNameSafe helpers (or_string id "1")])%list.



End Composer.
Import Composer.

(** ** A concrete world, adapter and codec to run the definitions on *)

Module Scenario.

(** A world that is its clock and the number of times a predicate was
    called in it. *)
Record World : Type := mkWorld { time : Z; calls : nat }.

Definition start : World := {| time := 0; calls := 0 |}.

Definition tick (w : World) : World := {| time := time w; calls := S (calls w) |}.

Definition plain : Element := {| elem_id := 0; elem_getFrame := None |}.

Definition framed : Element :=
  {| elem_id := 1;
     elem_getFrame := Some {| x := 10; y := 10; width := 100; height := 50 |} |}.

(** An adapter whose [sleep] advances the clock by the time asked for and
    whose page shows the selectors of [shown] at all times and no other. *)
Definition browser (shown : list string) : DriverAdapter World := {|
  getElement_ := fun _ _ _ w => (plain, w);
  getElements_ := fun _ selector _ w =>
    (match selector with
     | JString s => if existsb (String.eqb s) shown then [plain] else []
     | _ => []
     end, w);
  sleep_ := fun ms w => {| time := time w + ms; calls := calls w |};
  takeScreenshot_ := fun w => ([137; 80; 78; 71], w)
|}.

(** A page with the header but never the body. *)
Definition adapter : DriverAdapter World := browser [".hdr"].

(** A page with the header and the body. *)
Definition loaded : DriverAdapter World := browser [".hdr"; ".bd"].

(** A page whose elements are there for the first query only. *)
Definition flicker : DriverAdapter World := {|
  getElement_ := fun _ _ _ w => (plain, w);
  getElements_ := fun _ _ _ w => (if Nat.eqb (calls w) 0 then [plain] else [], tick w);
  sleep_ := fun ms w => {| time := time w + ms; calls := calls w |};
  takeScreenshot_ := fun w => ([137; 80; 78; 71], w)
|}.

Definition table : gmap string string :=
  <["header" := ".hdr"]> (<["body" := ".bd"]> ∅).

Definition page (loadSelectors : list string) : BaseObject :=
  {| _context := plain; _loadSelectors := loadSelectors; _selectors := table |}.

(** The same page object on a context that reports its frame. *)
Definition framed_page : BaseObject :=
  {| _context := framed; _loadSelectors := []; _selectors := table |}.

(** A predicate that is satisfied the first time it is called and never
    again. *)
Definition once : World -> JsValue * World :=
  fun w => (JBool (Nat.eqb (calls w) 0), tick w).

(** A predicate that answers with a thenable, whatever that settles to. *)
Definition deferred : World -> JsValue * World :=
  fun w => (JObject [("then", JFunction)], tick w).

(** Images as pixel maps. *)
Definition Bitmap : Type := Z -> Z -> option Color.

#[global] Instance Bitmap_image : PNGImage Bitmap := {|
  getPixel := fun img i j => img i j;
  fillRect := fun x0 y0 w h c img i j =>
    match img i j with
    | Some p => Some (if covers x0 y0 w h i j then c else p)
    | None => None
    end;
  clip := fun x0 y0 w h img i j =>
    if covers 0 0 w h i j then img (x0 + i) (y0 + j) else None
|}.

Definition white : Color := {| red := 255; green := 255; blue := 255; alpha := 255 |}.

(** A white screenshot of 200 by 100 pixels. *)
Definition screenshot : Bitmap :=
  fun i j => if covers 0 0 200 100 i j then Some white else None.

(** A codec that decodes and writes without failure. *)
Definition codec : Codec Bitmap :=
  {| loadImage := fun _ => CallbackOk screenshot;
     writeImage := fun _ _ => CallbackOk tt |}.

Definition decode_error : JsError := Error "Invalid file signature".

Definition write_error : JsError := Error "EACCES: permission denied".

(** A codec whose decoder reports an error to the callback. *)
Definition codec_bad_decode : Codec Bitmap :=
  {| loadImage := fun _ => CallbackError decode_error;
     writeImage := fun _ _ => CallbackOk tt |}.

(** A codec whose writer reports an error to the callback. *)
Definition codec_bad_write : Codec Bitmap :=
  {| loadImage := fun _ => CallbackOk screenshot;
     writeImage := fun _ _ => CallbackError write_error |}.

Definition is_alnum (c : Ascii.ascii) : bool :=
  let n := Ascii.nat_of_ascii c in
  ((48 <=? n) && (n <=? 57) || (65 <=? n) && (n <=? 90) || (97 <=? n) && (n <=? 122))%nat.

(** Modelled from the spec: [utils.fileNameSafe] of [preceptor-core] is not
    part of this repository; the spec has it make a name safe for a file
    system and shows it turn [Login Test] into [Login_Test].  Here every
    character that is not a letter or a digit becomes an underscore. *)
Fixpoint fileNameSafe_model (s : string) : string :=
  match s with
  | EmptyString => EmptyString
  | String c rest =>
      String (if is_alnum c then c else "_"%char) (fileNameSafe_model rest)
  end.

Definition helpers : Helpers :=
  {| fileNameSafe := fileNameSafe_model;
     nodePath_join := fun dir name =>
       match dir with
       | Some d => (d ++ "/" ++ name)%string
       | None => name
       end |}.

Definition settings : Settings :=
  {| class_SCREENSHOT_PATH := None;
     global_SCREENSHOT_PATH := Some "shots";
     env_SCREENSHOT_PATH := None;
     class_SCREENSHOT_PREFIX := None;
     global_SCREENSHOT_PREFIX := Some "suite1";
     env_SCREENSHOT_PREFIX := None |}.



(** Images kept row by row in one buffer: the width of a row and the
    pixels by their index [width * j + i]. *)
Record Rows : Type := mkRows {
  rows_width : Z;
  rows_pixels : Z -> option Color
}.

(** The rows [y0], ..., [y0 + h - 1]. *)
Definition rows_of (y0 h : Z) : list Z :=
  map (fun n => y0 + Z.of_nat n) (seq 0 (Z.to_nat h)).

(** A codec on such images that paints a rectangle point by point at the
    index of the point, without a look at the width of the image: a point
    beyond the right edge has the index of a pixel of the next row. *)
#[global] Instance Rows_image : PNGImage Rows := {|
  getPixel := fun img i j =>
    if (0 <=? i) && (i <? rows_width img)
    then rows_pixels img (rows_width img * j + i) else None;
  fillRect := fun x0 y0 w h c img =>
    {| rows_width := rows_width img;
       rows_pixels := fun k =>
         match rows_pixels img k with
         | Some p =>
             Some (if existsb (fun j => (x0 <=? k - rows_width img * j)
                                        && (k - rows_width img * j <? x0 + w))
                        (rows_of y0 h)
                   then c else p)
         | None => None
         end |};
  clip := fun x0 y0 w h img =>
    {| rows_width := w;
       rows_pixels := fun k =>
         if (0 <=? k) && (k <? w * h)
         then (if (0 <=? x0 + k mod w) && (x0 + k mod w <? rows_width img)
               then rows_pixels img (rows_width img * (y0 + k / w) + (x0 + k mod w))
               else None)
         else None |}
|}.



(** A predicate that is satisfied from the time [t0] on. *)
Definition ready_at (t0 : Z) : World -> JsValue * World :=
  fun w => (JBool (t0 <=? time w), tick w).

End Scenario.

(** ** Construction *)

Module Construction.

(** [initialize()]: nothing by default. *)
Definition initialize (self : BaseObject) : Completion BaseObject := Return self.

(** The constructor [BaseObject(context, timeOut, waitInMs)], over the
    [initialize] of the class that is constructed: the fields are set,
    [initialize] runs and the load selectors are waited for. *)
Definition construct {W : Type} (now : W -> Z) (adapter : DriverAdapter W)
    (initialize : BaseObject -> Completion BaseObject)
    (context : Element) (timeOut waitInMs : option Z) (fuel : nat) (w : W)
    : option (Completion BaseObject * W * list Event) :=
  let self := {| _context := context; _loadSelectors := []; _selectors := ∅ |} in
  match initialize self with
  | Return self' => verifyIsLoaded now adapter self' timeOut waitInMs fuel w
  | Throw e => Some (Throw e, w, [])
  end.

(** The number of times a run called the adapter's [sleep]. *)
Definition sleeps (tr : list Event) : nat := List.length (List.filter is_sleep tr).

End Construction.
Import Construction.

(** ** Service requests *)

Module Service.

(** A response body: a string, or another value. *)
Inductive Body : Type :=
| BodyString (s : string)
| BodyValue (v : JsValue).

(** The response object handed to the callback of a request, as far as
    [sendRequest] reads it; the status code is an integer. *)
Record Response : Type := mkResponse {
  statusCode : Z;
  body : Body
}.

(** The options [sendRequest] passes to the request function. *)
Record Options : Type := mkOptions {
  opt_method : string;
  opt_url : string;
  opt_json : JsValue
}.

(** What the request function hands to its callback:
    [(err, response, responseData)]. *)
Record Reply : Type := mkReply {
  reply_err : option JsError;
  reply_response : option Response;
  reply_data : JsValue
}.

(** The helpers [sendRequest] takes from elsewhere: [utils.combine] of
    [preceptor-core] and [JSON.stringify]. *)
Record Tools : Type := mkTools {
  combine : string -> string -> string -> string;
  stringify : JsValue -> string
}.

Record ServiceRequest : Type := mkServiceRequest {
  _request : Options -> Reply;
  _baseUrl : string
}.

(** How the callback of the request ends: it resolves or rejects the
    promise, or it throws the [TypeError] of reading [body] of
    [undefined] before it does either. *)
Inductive Ending : Type :=
| Resolves (value : JsValue)
| Rejects (reason : JsError)
| ThrowsTypeError.

(** [Math.floor(statusCode / 200) === 2]. *)
Definition is_failure_code (code : Z) : bool := (code / 200 =? 2).

(** A text between double quotes. *)
Definition quoted (s : string) : string :=
  String (ascii_of_nat 34) (s ++ String (ascii_of_nat 34) EmptyString)%string.

(** The message of the error a failure code is rejected with. *)
Definition failure_message (tools : Tools) (method url : string) (data : JsValue)
    (response : Response) : string :=
  let body :=
    match body response with
    | BodyString s => s
    | BodyValue v => stringify tools v
    end in
  ("Request for " ++ quoted url ++ " with method " ++ quoted method
   ++ " and data " ++ quoted (stringify tools data)
   ++ "; received code " ++ quoted (pretty (statusCode response))
   ++ " with body " ++ quoted body)%string.

(** The callback [function (err, response, responseData)] of the request. *)
Definition sendRequest_callback (tools : Tools) (method url : string) (data : JsValue)
    (reply : Reply) : Ending :=
  match reply_response reply with
  | None => ThrowsTypeError
  | Some response =>
      match reply_err reply with
      | Some err => Rejects err
      | None =>
          if is_failure_code (statusCode response) then
            Rejects (Error (failure_message tools method url data response))
          else Resolves (reply_data reply)
      end
  end.

(** [sendRequest(method, url, data)]: how the promise it returns is
    settled by the callback. *)
Definition sendRequest (tools : Tools) (self : ServiceRequest)
    (method url : string) (data : JsValue) : Ending :=
  sendRequest_callback tools method url data
    (_request self {| opt_method := method;
                      opt_url := combine tools "/" (_baseUrl self) url;
                      opt_json := data |}).

(** Tools for running the definitions: paths joined with the separator,
    values shown by a fixed text. *)
Definition plain_tools : Tools :=
  {| combine := fun sep a b => (a ++ sep ++ b)%string;
     stringify := fun _ => "{}" |}.

(** A server that answers every request with the given status code. *)
Definition server (code : Z) : ServiceRequest :=
  {| _request := fun _ =>
       {| reply_err := None;
          reply_response := Some {| statusCode := code; body := BodyString "ok" |};
          reply_data := JString "ok" |};
     _baseUrl := "http://host" |}.

End Service.

(** * Properties *)

(** ** Readiness poller *)

Section PollerFacts.

Context {W : Type} (now : W -> Z) (adapter : DriverAdapter W).

(** More fuel does not change the result of a loop that has stopped. *)
Lemma waitUntil_loop_more_fuel self fn message startTime timeOut waitInMs :
  forall fuel w r,
    waitUntil_loop now adapter self fn message startTime timeOut waitInMs fuel w = Some r ->
    forall fuel', (fuel <= fuel')%nat ->
    waitUntil_loop now adapter self fn message startTime timeOut waitInMs fuel' w = Some r.
Proof.
  induction fuel as [|fuel IH]; intros w r Hrun fuel' Hle; [discriminate|].
  destruct fuel' as [|fuel']; [lia|].
  simpl in Hrun |- *.
  destruct (fn w) as [v w1].
  destruct (negb (truthy v)); [|exact Hrun].
  destruct (now w1 - startTime >=? timeOut); [exact Hrun|].
  destruct (waitUntil_loop now adapter self fn message startTime timeOut waitInMs
              fuel (sleep_ adapter waitInMs w1)) as [[[c w'] tr]|] eqn:Hrec;
    [|discriminate].
  rewrite (IH _ _ Hrec fuel') by lia. exact Hrun.
Qed.

(** A loop that throws does so with the time-out error, no earlier than
    [timeOut] after [startTime], whatever the predicate and the adapter
    do. *)
Lemma waitUntil_loop_throw_late self fn message startTime timeOut waitInMs :
  forall fuel w e w' tr,
    waitUntil_loop now adapter self fn message startTime timeOut waitInMs fuel w
      = Some (Throw e, w', tr) ->
    e = Error (timeout_message message) /\ timeOut <= now w' - startTime.
Proof.
  induction fuel as [|fuel IH]; intros w e w' tr Hrun; [discriminate|].
  simpl in Hrun.
  destruct (fn w) as [v w1].
  destruct (negb (truthy v)); [|discriminate].
  destruct (now w1 - startTime >=? timeOut) eqn:Hcheck.
  - injection Hrun as <- <- _. split; [reflexivity|lia].
  - destruct (waitUntil_loop now adapter self fn message startTime timeOut waitInMs
                fuel (sleep_ adapter waitInMs w1)) as [[[c w''] tr']|] eqn:Hrec;
      [|discriminate].
    injection Hrun as -> -> _. exact (IH _ _ _ _ Hrec).
Qed.

Lemma waitUntil_loop_unfold self fn message startTime timeOut waitInMs fuel w :
  waitUntil_loop now adapter self fn message startTime timeOut waitInMs (S fuel) w =
  let (r, w1) := fn w in
  if negb (truthy r) then
    if now w1 - startTime >=? timeOut then
      Some (Throw (Error (timeout_message message)), w1, [EvCall r; EvNow (now w1)])
    else
      match waitUntil_loop now adapter self fn message startTime timeOut waitInMs
              fuel (sleep_ adapter waitInMs w1) with
      | Some (c, w', tr) =>
          Some (c, w', EvCall r :: EvNow (now w1) :: EvSleep waitInMs :: tr)
      | None => None
      end
  else Some (Return self, w1, [EvCall r]).
Proof. reflexivity. Qed.

(** With a predicate that is never satisfied and takes no time, and a
    sleep that takes the time asked for, [n] rounds of the loop are enough
    once [n] poll intervals reach the deadline; the loop then throws, and
    no later than one poll interval after the deadline. *)
Lemma waitUntil_loop_times_out self fn message startTime timeOut waitInMs :
  (forall ms w, 0 < ms -> now (sleep_ adapter ms w) = now w + ms) ->
  never_truthy fn -> instant now fn -> 0 < waitInMs ->
  forall (n : nat) (w : W),
    timeOut - (now w - startTime) <= Z.of_nat n * waitInMs ->
    now w - startTime < timeOut + waitInMs ->
    exists w' tr,
      waitUntil_loop now adapter self fn message startTime timeOut waitInMs (S n) w
        = Some (Throw (Error (timeout_message message)), w', tr) /\
      timed_out_polls startTime timeOut waitInMs tr /\
      timeOut <= now w' - startTime < timeOut + waitInMs.
Proof.
  intros Hsleep Hnever Hinstant Hpos.
  induction n as [|n IH]; intros w Hreach Hsoon;
    rewrite waitUntil_loop_unfold;
    pose proof (Hnever w) as Hfalsy; pose proof (Hinstant w) as Hclock;
    destruct (fn w) as [v w1]; simpl in Hfalsy, Hclock;
    rewrite Hfalsy; cbn [negb];
    destruct (now w1 - startTime >=? timeOut) eqn:Hcheck.
  - exists w1, [EvCall v; EvNow (now w1)].
    split; [reflexivity|]. split; [constructor; [assumption|lia]|lia].
  - lia.
  - exists w1, [EvCall v; EvNow (now w1)].
    split; [reflexivity|]. split; [constructor; [assumption|lia]|lia].
  - destruct (IH (sleep_ adapter waitInMs w1)) as (w' & tr & Hrun & Hpolls & Hbounds).
    + rewrite Hsleep by assumption. lia.
    + rewrite Hsleep by assumption. lia.
    + exists w', (EvCall v :: EvNow (now w1) :: EvSleep waitInMs :: tr).
      rewrite Hrun. split; [reflexivity|].
      split; [constructor; [assumption|lia|assumption]|exact Hbounds].
Qed.

(** [fn] never satisfied: [waitUntil] times out, between [timeOut] and
    [timeOut] plus one poll interval after it was called. *)
Lemma waitUntil_times_out self fn message timeOut waitInMs w :
  (forall ms w, 0 < ms -> now (sleep_ adapter ms w) = now w + ms) ->
  never_truthy fn -> instant now fn ->
  0 < or_int timeOut 10000 -> 0 < or_int waitInMs 500 ->
  exists n w' tr,
    times_out (fun fuel => waitUntil now adapter self fn message timeOut waitInMs fuel w)
      message n w' (EvNow (now w) :: EvCall (fst (fn w)) :: tr) /\
    timed_out_polls (now w) (or_int timeOut 10000) (or_int waitInMs 500) tr /\
    or_int timeOut 10000 <= now w' - now w
      < or_int timeOut 10000 + or_int waitInMs 500.
Proof.
  intros Hsleep Hnever Hinstant HT HP.
  set (T := or_int timeOut 10000) in *. set (P := or_int waitInMs 500) in *.
  pose proof (Hnever w) as Hfalsy. pose proof (Hinstant w) as Hclock.
  destruct (waitUntil_loop_times_out self fn message (now w) T P
              Hsleep Hnever Hinstant HP (Z.to_nat (T / P + 1)) (snd (fn w)))
    as (w' & tr & Hrun & Hpolls & Hbounds).
  - rewrite Hclock, Z2Nat.id by (pose proof (Z.div_pos T P); lia).
    pose proof (Z.div_mod T P). pose proof (Z.mod_pos_bound T P). nia.
  - rewrite Hclock. lia.
  - exists (S (Z.to_nat (T / P + 1))), w', tr.
    split; [|split; assumption].
    intros fuel Hfuel. unfold waitUntil. fold T P.
    destruct (fn w) as [v w0]; cbn [fst snd] in *.
    unfold and_then. rewrite Hfalsy, Hfalsy.
    rewrite (waitUntil_loop_more_fuel _ _ _ _ _ _ _ _ _ Hrun fuel Hfuel).
    reflexivity.
Qed.

End PollerFacts.

Section WaitForElementsFacts.

Context {W : Type} (now : W -> Z) (adapter : DriverAdapter W).

(** Once a name has failed, the remaining names are not looked up. *)
Lemma allLoaded_each_false self selectors (w : W) :
  fold_left (allLoaded_each adapter self) selectors (false, w) = (false, w).
Proof. induction selectors as [|s rest IH]; [reflexivity|exact IH]. Qed.






End WaitForElementsFacts.




(** ** Entry evaluation of [waitUntil] *)

Section EntryFacts.

Context {W : Type} (now : W -> Z) (adapter : DriverAdapter W).

(** A result that is not a thenable is dropped: what [waitUntil] does next
    is the loop, which starts with another evaluation. *)
Lemma waitUntil_reevaluates self fn message timeOut waitInMs fuel (w : W) :
  truthy (and_then (fst (fn w)) (fun r => get r "then")) = false ->
  waitUntil now adapter self fn message timeOut waitInMs fuel w =
  match waitUntil_loop now adapter self fn message (now w) (or_int timeOut 10000)
          (or_int waitInMs 500) fuel (snd (fn w)) with
  | Some (c, w', tr) => Some (c, w', EvNow (now w) :: EvCall (fst (fn w)) :: tr)
  | None => None
  end.
Proof.
  intros Hplain. unfold waitUntil.
  destruct (fn w) as [r w0]; cbn [fst snd] in *. rewrite Hplain. reflexivity.
Qed.

(** When the evaluation on entry and the one after it are both truthy,
    [waitUntil] returns after these two evaluations, without a sleep. *)
Lemma waitUntil_returns_without_sleep self fn message timeOut waitInMs fuel (w : W) :
  truthy (and_then (fst (fn w)) (fun r => get r "then")) = false ->
  truthy (fst (fn (snd (fn w)))) = true ->
  waitUntil now adapter self fn message timeOut waitInMs (S fuel) w =
  Some (Return self, snd (fn (snd (fn w))),
        [EvNow (now w); EvCall (fst (fn w)); EvCall (fst (fn (snd (fn w))))]).
Proof.
  intros Hplain Hagain. rewrite waitUntil_reevaluates by assumption.
  rewrite waitUntil_loop_unfold.
  destruct (fn (snd (fn w))) as [r1 w1]; cbn [fst snd] in *.
  rewrite Hagain. reflexivity.
Qed.

(** A thenable on entry ends [waitUntil] at once, for any fuel. *)
Lemma waitUntil_thenable_returns self fn message timeOut waitInMs fuel (w : W) :
  truthy (and_then (fst (fn w)) (fun r => get r "then")) = true ->
  waitUntil now adapter self fn message timeOut waitInMs fuel w =
  Some (Return self, snd (fn w), [EvNow (now w); EvCall (fst (fn w))]).
Proof.
  intros Hthen. unfold waitUntil.
  destruct (fn w) as [r w0]; cbn [fst snd] in *. rewrite Hthen. reflexivity.
Qed.

(** Whatever the predicate and the adapter do, a [waitUntil] that throws
    throws the time-out error, and no earlier than [timeOut] after it was
    called. *)
Lemma waitUntil_throw_late self fn message timeOut waitInMs fuel (w : W) e w' tr :
  waitUntil now adapter self fn message timeOut waitInMs fuel w = Some (Throw e, w', tr) ->
  e = Error (timeout_message message) /\ or_int timeOut 10000 <= now w' - now w.
Proof.
  unfold waitUntil. destruct (fn w) as [r w0].
  destruct (truthy (and_then r (fun r => get r "then"))); [discriminate|].
  destruct (waitUntil_loop now adapter self fn message (now w) (or_int timeOut 10000)
              (or_int waitInMs 500) fuel w0) as [[[c w1] tr1]|] eqn:Hloop;
    [|discriminate].
  intros [= -> -> _].
  exact (waitUntil_loop_throw_late now adapter _ _ _ _ _ _ _ _ _ _ _ Hloop).
Qed.

End EntryFacts.

(** C2. The predicate [once] is truthy on the evaluation on entry and falsy
    afterwards.  [waitUntil] drops the entry result, evaluates the predicate
    again, sleeps twice and throws the time-out error: it neither returns
    at once nor stays away from the adapter's sleep.  The same happens to
    [waitForElements] on a page whose header is there for the first pass
    only. *)
Theorem waitUntil_first_result_dropped :
  (fst (Scenario.once Scenario.start) = JBool true /\
   waitUntil Scenario.time Scenario.adapter (Scenario.page []) Scenario.once "ready"
     (Some 100) (Some 50) 10 Scenario.start =
   Some (Throw (Error (timeout_message "ready")),
         {| Scenario.time := 100; Scenario.calls := 4 |},
         [EvNow 0; EvCall (JBool true);
          EvCall (JBool false); EvNow 0; EvSleep 50;
          EvCall (JBool false); EvNow 50; EvSleep 50;
          EvCall (JBool false); EvNow 100])) /\
  (fst (allElementsLoaded Scenario.flicker (Scenario.page []) ["header"] Scenario.start)
     = JBool true /\
   waitForElements Scenario.time Scenario.flicker (Scenario.page []) ["header"]
     (Some 100) (Some 50) 10 Scenario.start =
   Some (Throw (Error (timeout_message "Waited for selectors 'header'")),
         {| Scenario.time := 100; Scenario.calls := 4 |},
         [EvNow 0; EvCall (JBool true);
          EvCall (JBool false); EvNow 0; EvSleep 50;
          EvCall (JBool false); EvNow 50; EvSleep 50;
          EvCall (JBool false); EvNow 100])).
Proof. repeat split; reflexivity. Qed.

(** C6. The predicate [deferred] answers with a thenable.  [waitUntil]
    returns right after that one evaluation, for any fuel: it does not wait
    for the thenable to settle and does not look at what it settles to. *)
Theorem waitUntil_thenable_not_awaited :
  forall fuel,
    waitUntil Scenario.time Scenario.adapter (Scenario.page []) Scenario.deferred "ready"
      (Some 100) (Some 50) fuel Scenario.start =
    Some (Return (Scenario.page []),
          {| Scenario.time := 0; Scenario.calls := 1 |},
          [EvNow 0; EvCall (JObject [("then", JFunction)])]).
Proof. intros fuel. apply waitUntil_thenable_returns. reflexivity. Qed.

(** ** Load selectors *)

(** [addLoadSelector] never throws: the guard reads the method, which is
    always there. *)
Lemma addLoadSelector_always_pushes self selector :
  addLoadSelector self selector = Return (push_loadSelector self selector).
Proof. reflexivity. Qed.

(** So [addLoadSelectors] appends all the names it is given. *)
Lemma addLoadSelectors_always_pushes selectors :
  forall self,
    addLoadSelectors self selectors =
    Return {| _context := _context self;
              _loadSelectors := (_loadSelectors self ++ selectors)%list;
              _selectors := _selectors self |}.
Proof.
  induction selectors as [|s rest IH]; intros self.
  - cbn. rewrite app_nil_r. destruct self; reflexivity.
  - cbn [addLoadSelectors]. rewrite addLoadSelector_always_pushes, IH.
    cbn. rewrite <- app_assoc. reflexivity.
Qed.

(** A name of the table is appended, and nothing is thrown. *)
Lemma addLoadSelector_known self selector :
  hasSelector self selector = true ->
  exists self',
    addLoadSelector self selector = Return self' /\
    _loadSelectors self' = (_loadSelectors self ++ [selector])%list /\
    _selectors self' = _selectors self.
Proof.
  intros _. exists (push_loadSelector self selector).
  repeat split; reflexivity.
Qed.

(** C3. The table of [page] has no selector [missing]; [addLoadSelector]
    does not throw for it and appends it to the load selectors. *)
Theorem addLoadSelector_unknown_accepted :
  hasSelector (Scenario.page ["header"]) "missing" = false /\
  addLoadSelector (Scenario.page ["header"]) "missing" =
    Return (Scenario.page ["header"; "missing"]).
Proof. split; reflexivity. Qed.

(** ** Screenshot composer *)

Section ComposerFacts.

Context {Image : Type} `{PNGImageLaws Image}.

(** After the fills a pixel is black when one of the rectangles covers it,
    and what it was otherwise. *)
Lemma getPixel_fill_blackOuts (blackOutList : list Rect) :
  forall (image : Image) i j,
    getPixel (fill_blackOuts blackOutList image) i j =
    match getPixel image i j with
    | Some p =>
        Some (if existsb (fun r => in_rect r i j) blackOutList then blackOut_color else p)
    | None => None
    end.
Proof.
  induction blackOutList as [|r rest IH]; intros image i j.
  - cbn. destruct (getPixel image i j); reflexivity.
  - change (fill_blackOuts (r :: rest) image)
      with (fill_blackOuts rest
              (fillRect (x r) (y r) (width r) (height r) blackOut_color image)).
    rewrite IH, getPixel_fillRect. cbn [existsb]. unfold in_rect at 2.
    destruct (getPixel image i j) as [p|]; [|reflexivity].
    destruct (covers (x r) (y r) (width r) (height r) i j); cbn [orb];
      [destruct (existsb _ rest)|]; reflexivity.
Qed.

(** Whether some rectangle of a list covers a pixel does not depend on the
    order of the list. *)
Lemma existsb_Permutation {A : Type} (f : A -> bool) (l l' : list A) :
  Permutation l l' -> existsb f l = existsb f l'.
Proof.
  induction 1 as [|a l l' _ IH|a b l|l l' l'' _ IH1 _ IH2]; cbn.
  - reflexivity.
  - rewrite IH. reflexivity.
  - destruct (f a), (f b); reflexivity.
  - rewrite IH1. exact IH2.
Qed.

Lemma clip_to_frame_identical (frame : Rect) (a b : Image) :
  pixel_identical a b ->
  pixel_identical (clip_to_frame frame a) (clip_to_frame frame b).
Proof.
  intros Hsame i j. unfold clip_to_frame.
  destruct (clips frame); [|apply Hsame].
  rewrite !getPixel_clip. destruct (covers 0 0 (width frame) (height frame) i j);
    [apply Hsame|reflexivity].
Qed.







(** C7. With no black-out and the all-zero frame the image that is written
    is the decoded screenshot itself, pixel for pixel. *)
Theorem compose_nothing_is_identity :
  forall (image : Image),
    compose image [] zeroRect = image /\
    pixel_identical (compose image [] zeroRect) image.
Proof. intros image. split; [reflexivity|intros i j; reflexivity]. Qed.

(** C8. The output of the composition does not depend on the order of the
    black-out list: every fill paints the same opaque black, so a pixel is
    black as soon as one rectangle of the list covers it. *)
Theorem compose_Permutation :
  forall (image : Image) (frame : Rect) (blackOutList blackOutList' : list Rect),
    Permutation blackOutList blackOutList' ->
    pixel_identical (compose image blackOutList frame)
                    (compose image blackOutList' frame).
Proof.
  intros image frame l l' Hperm. apply clip_to_frame_identical.
  intros i j. rewrite !getPixel_fill_blackOuts.
  rewrite (existsb_Permutation _ l l' Hperm). reflexivity.
Qed.

End ComposerFacts.

(** The pixel maps satisfy the laws asked of the codec. *)
#[global] Instance Bitmap_laws : PNGImageLaws Scenario.Bitmap.
Proof. split; intros; reflexivity. Qed.



Lemma compose_Permutation_witness :
  let a := {| x := 0; y := 0; width := 20; height := 20 |} in
  let b := {| x := 10; y := 10; width := 30; height := 5 |} in
  Permutation [a; b] [b; a] /\
  pixel_identical (compose Scenario.screenshot [a; b] zeroRect)
                  (compose Scenario.screenshot [b; a] zeroRect).
Proof.
  intros a b. split; [apply perm_swap|].
  apply (compose_Permutation Scenario.screenshot zeroRect [a; b] [b; a]).
  apply perm_swap.
Defined.

(** The scenario of the spec: a frame of 100 by 50 at (10, 10) and one
    black-out of 5 by 5 at the origin give the 100 by 50 pixels of the
    screenshot under the frame, none of them black. *)
Example clipped_without_redaction :
  let frame := {| x := 10; y := 10; width := 100; height := 50 |} in
  let outer := {| x := 0; y := 0; width := 5; height := 5 |} in
  forall i j,
    getPixel (compose Scenario.screenshot [outer] frame) i j =
    if covers 0 0 100 50 i j then Some Scenario.white else None.
Proof.
  intros frame outer i j. cbn.
  unfold Scenario.screenshot, covers.
  destruct (0 <=? i) eqn:H0i, (i <? 0 + 100) eqn:Hi, (0 <=? j) eqn:H0j,
    (j <? 0 + 50) eqn:Hj; cbn [andb]; try reflexivity.
  apply Z.leb_le in H0i, H0j. apply Z.ltb_lt in Hi, Hj.
  replace (0 <=? 10 + i) with true by (symmetry; apply Z.leb_le; lia).
  replace (10 + i <? 0 + 200) with true by (symmetry; apply Z.ltb_lt; lia).
  replace (0 <=? 10 + j) with true by (symmetry; apply Z.leb_le; lia).
  replace (10 + j <? 0 + 100) with true by (symmetry; apply Z.ltb_lt; lia).
  replace (10 + i <? 0 + 5) with false by (symmetry; apply Z.ltb_ge; lia).
  rewrite andb_false_r. reflexivity.
Qed.

(** ** The frame of a page object *)

Section FrameFacts.

Context {W Image : Type} `{PNGImage Image} (adapter : DriverAdapter W).

(** The executor writes what [compose] makes of the decoded screenshot, or
    nothing. *)
Lemma capture_executor_written (codec : Codec Image) self buffer path blackOutList frame
    file image :
  written (capture_executor codec self buffer path blackOutList frame) = Some (file, image) ->
  exists decoded,
    loadImage codec buffer = CallbackOk decoded /\
    file = path /\ image = compose decoded blackOutList frame.
Proof.
  unfold capture_executor, loadImage_callback, writeImage_callback.
  destruct (loadImage codec buffer) as [e|e|decoded]; cbn; try discriminate.
  destruct (writeImage codec path (compose decoded blackOutList frame)) as [e|e|[]];
    cbn; try discriminate.
  intros [= <- <-]. exists decoded. repeat split.
Qed.

(** C10. A context without a [getFrame] method gives the zero rectangle, and
    so does a looked-up element without one; [capture] on a page object with
    such a context writes the decoded screenshot with the fills only, not
    clipped. *)
Theorem getFrame_without_capability :
  forall (self : BaseObject) (w : W),
    (elem_getFrame (getContext self) = None ->
     getFrame adapter self None w = ({| x := 0; y := 0; width := 0; height := 0 |}, w)) /\
    (forall name,
       truthy (JString name) = true ->
       elem_getFrame (fst (getElement adapter self name w)) = None ->
       fst (getFrame adapter self (Some name) w)
         = {| x := 0; y := 0; width := 0; height := 0 |}) /\
    (elem_getFrame (getContext self) = None ->
     forall codec helpers cfg title id wait additionalBlackOuts file (image : Image),
       written (fst (capture adapter codec helpers cfg self title id wait
                       additionalBlackOuts w)) = Some (file, image) ->
       exists decoded,
         loadImage codec (fst (takeScreenshot_ adapter (sleep_ adapter (or_int wait 1000) w)))
           = CallbackOk decoded /\
         image = fill_blackOuts (map resolve_entry (or_list additionalBlackOuts)) decoded).
Proof.
  intros self w. split; [|split].
  - intros Hnone. unfold getFrame. rewrite Hnone. reflexivity.
  - intros name Hname Hnone. unfold getFrame. rewrite Hname.
    destruct (getElement adapter self name w) as [element w1]; cbn [fst] in *.
    rewrite Hnone. reflexivity.
  - intros Hnone codec helpers cfg title id wait additionalBlackOuts file image.
    unfold capture, getFrame. rewrite Hnone.
    destruct (takeScreenshot_ adapter (sleep_ adapter (or_int wait 1000) w))
      as [buffer w3]; cbn [fst].
    intros Hwritten.
    destruct (capture_executor_written _ _ _ _ _ _ _ _ Hwritten)
      as (decoded & Hload & _ & ->).
    exists decoded. split; [exact Hload|reflexivity].
Qed.

End FrameFacts.

Lemma getFrame_without_capability_witness :
  elem_getFrame (getContext (Scenario.page [])) = None /\
  getFrame Scenario.adapter (Scenario.page []) None Scenario.start
    = ({| x := 0; y := 0; width := 0; height := 0 |}, Scenario.start).
Proof.
  split; [reflexivity|].
  apply (proj1 (getFrame_without_capability (Image := Scenario.Bitmap)
                  Scenario.adapter (Scenario.page []) Scenario.start)).
  reflexivity.
Defined.

(** ** The file name *)

Lemma append_assoc (a b c : string) : ((a ++ b) ++ c)%string = (a ++ b ++ c)%string.
Proof.
  induction a as [|ch a IH]; [reflexivity|].
  change (String ch ((a ++ b) ++ c)%string = String ch (a ++ b ++ c)%string).
  rewrite IH. reflexivity.
Qed.

(** The name computed is its parts joined with [_] and followed by
    [.png]. *)
Lemma capture_fileName_parts (helpers : Helpers) prefix title id :
  capture_fileName helpers prefix title id =
  (join "_" (fileName_parts helpers prefix title id) ++ ".png")%string.
Proof.
  unfold capture_fileName, fileName_parts, truthy_string.
  destruct prefix as [p|]; cbn [truthy or_string].
  - destruct (String.eqb p ""); cbn [negb app join];
      rewrite ?append_assoc; reflexivity.
  - cbn [app join]. rewrite ?append_assoc. reflexivity.
Qed.

Section FileNameFacts.

Context {W Image : Type} `{PNGImage Image}.


End FileNameFacts.



(** ** The promise of a capture *)

Section PromiseFacts.

Context {Image : Type} `{PNGImage Image} (codec : Codec Image).

(** The promise is fulfilled only by the callback of a write that has
    completed, and then with the page object. *)
Lemma capture_fulfilled_after_write self buffer path blackOutList frame value :
  promise (capture_executor codec self buffer path blackOutList frame) = Fulfilled value ->
  value = self /\
  exists decoded,
    loadImage codec buffer = CallbackOk decoded /\
    writeImage codec path (compose decoded blackOutList frame) = CallbackOk tt /\
    written (capture_executor codec self buffer path blackOutList frame)
      = Some (path, compose decoded blackOutList frame).
Proof.
  unfold capture_executor, loadImage_callback, writeImage_callback.
  destruct (loadImage codec buffer) as [e|e|decoded]; try discriminate.
  destruct (writeImage codec path (compose decoded blackOutList frame)) as [e|e|[]]
    eqn:Hwrite; cbn; try discriminate.
  intros [= <-]. split; [reflexivity|]. exists decoded.
  split; [reflexivity|]. split; [exact Hwrite|reflexivity].
Qed.

(** The promise is rejected only when [loadImage] itself throws. *)
Lemma capture_rejected_only_by_loadImage self buffer path blackOutList frame reason :
  promise (capture_executor codec self buffer path blackOutList frame) = Rejected reason ->
  loadImage codec buffer = Throws reason.
Proof.
  unfold capture_executor, loadImage_callback, writeImage_callback.
  destruct (loadImage codec buffer) as [e|e|decoded]; cbn.
  - intros [= <-]. reflexivity.
  - discriminate.
  - destruct (writeImage codec path (compose decoded blackOutList frame)) as [e|e|[]];
      cbn; discriminate.
Qed.

(** An error handed to one of the two callbacks is thrown out of the
    callback and leaves the promise pending. *)
Lemma capture_callback_error_pending self buffer path blackOutList frame e :
  (loadImage codec buffer = CallbackError e \/
   exists decoded,
     loadImage codec buffer = CallbackOk decoded /\
     writeImage codec path (compose decoded blackOutList frame) = CallbackError e) ->
  capture_executor codec self buffer path blackOutList frame
    = mkCaptureResult Pending [e] None.
Proof.
  unfold capture_executor, loadImage_callback, writeImage_callback.
  intros [->|(decoded & -> & ->)]; reflexivity.
Qed.

End PromiseFacts.

(** C4. A decoder that reports an error to its callback, and a writer that
    does, both leave the promise of [capture] pending for ever, with the
    error thrown out of the callback: the promise is not rejected. *)
Theorem capture_callback_errors_not_rejected :
  fst (capture Scenario.adapter Scenario.codec_bad_decode Scenario.helpers Scenario.settings
         (Scenario.page []) "Login Test" None None None Scenario.start)
    = mkCaptureResult Pending [Scenario.decode_error] None /\
  fst (capture Scenario.adapter Scenario.codec_bad_write Scenario.helpers Scenario.settings
         (Scenario.page []) "Login Test" None None None Scenario.start)
    = mkCaptureResult Pending [Scenario.write_error] None.
Proof. split; reflexivity. Qed.

(** ** The scenarios of the specification *)

(** Both load selectors present at once: the page object is verified with
    no sleep. *)
Example construction_without_delay :
  verifyIsLoaded Scenario.time Scenario.loaded (Scenario.page ["header"; "body"])
    None None 1 Scenario.start
  = Some (Return (Scenario.page ["header"; "body"]), Scenario.start,
          [EvNow 0; EvCall (JBool true); EvCall (JBool true)]).
Proof. reflexivity. Qed.

(** [body] absent for ever, a time-out of 200 ms and polls every 50 ms:
    the verification throws at 200 ms. *)
Example construction_times_out :
  exists tr,
    verifyIsLoaded Scenario.time Scenario.adapter (Scenario.page ["header"; "body"])
      (Some 200) (Some 50) 5 Scenario.start
    = Some (Throw (Error (timeout_message "Waited for selectors 'header, body'")),
            {| Scenario.time := 200; Scenario.calls := 0 |}, tr) /\
    List.length (filter is_sleep tr) = 4%nat.
Proof. eexists. split; reflexivity. Qed.

(** A capture that goes well resolves with the page object and has written
    the file under the computed name. *)
Example capture_resolves :
  fst (capture Scenario.adapter Scenario.codec Scenario.helpers Scenario.settings
         (Scenario.page []) "Login Test" None None None Scenario.start)
  = mkCaptureResult (Fulfilled (Scenario.page [])) []
      (Some ("shots/suite1_Login_Test_1.png", Scenario.screenshot)).
Proof. reflexivity. Qed.

(** On a context that reports its frame the capture is clipped to it. *)
Example capture_clips_to_context :
  getFrame Scenario.adapter Scenario.framed_page None Scenario.start
    = ({| x := 10; y := 10; width := 100; height := 50 |}, Scenario.start) /\
  written (fst (capture Scenario.adapter Scenario.codec Scenario.helpers Scenario.settings
                  Scenario.framed_page "Login Test" (Some "2") None None Scenario.start))
    = Some ("shots/suite1_Login_Test_2.png",
            clip 10 10 100 50 Scenario.screenshot).
Proof. split; reflexivity. Qed.

(** * Further properties of the code *)

(** ** The pass over the selectors *)

Section PassFacts.

Context {W : Type} (now : W -> Z) (adapter : DriverAdapter W).

(** X1. With no selector to wait for, [waitForElements] returns the page
    object after the two evaluations of the empty pass, in the world it was
    called in: it asks the adapter for nothing and does not sleep, whatever
    the time-out.  So does the constructor of a class whose [initialize]
    registers nothing. *)
Theorem waitForElements_nothing_to_wait_for :
  forall self context timeOut waitInMs fuel (w : W),
    waitForElements now adapter self [] timeOut waitInMs (S fuel) w
      = Some (Return self, w, [EvNow (now w); EvCall (JBool true); EvCall (JBool true)]) /\
    construct now adapter initialize context timeOut waitInMs (S fuel) w
      = Some (Return {| _context := context; _loadSelectors := []; _selectors := ∅ |},
              w, [EvNow (now w); EvCall (JBool true); EvCall (JBool true)]).
Proof. intros. split; reflexivity. Qed.

(** X2. A pass stops asking at the first selector that is absent: when the
    selectors of [before] are all found and [s] is not, the pass over
    [before ++ s :: after] is falsy and ends in the world the query for [s]
    left, so that no selector of [after] is looked up. *)
Theorem allElementsLoaded_stops_at_first_absent :
  forall self before s after (w w1 : W),
    fold_left (allLoaded_each adapter self) before (true, w) = (true, w1) ->
    fst (hasElement adapter self s w1) = false ->
    allElementsLoaded adapter self (before ++ s :: after) w
      = (JBool false, snd (hasElement adapter self s w1)).
Proof.
  intros self before s after w w1 Hbefore Habsent.
  unfold allElementsLoaded. rewrite fold_left_app, Hbefore.
  cbn [fold_left allLoaded_each].
  destruct (hasElement adapter self s w1) as [present w2]; cbn [fst snd] in *.
  subst present. cbn [andb]. rewrite allLoaded_each_false. reflexivity.
Qed.

(** Whether the adapter finds an element for a selector name in [w]. *)
Lemma hasElement_pure self name (w : W) :
  (forall context selector strategy w,
     snd (getElements_ adapter context selector strategy w) = w) ->
  snd (hasElement adapter self name w) = w.
Proof.
  intros Hpure. unfold hasElement.
  pose proof (Hpure (getContext self) (getSelector self name) "css selector" w) as Hw.
  destruct (getElements_ adapter (getContext self) (getSelector self name)
              "css selector" w) as [elements w1].
  exact Hw.
Qed.

Lemma allLoaded_pure self :
  (forall context selector strategy w,
     snd (getElements_ adapter context selector strategy w) = w) ->
  forall selectors (allLoaded : bool) (w : W),
    fold_left (allLoaded_each adapter self) selectors (allLoaded, w)
    = (allLoaded && forallb (fun name => fst (hasElement adapter self name w)) selectors, w).
Proof.
  intros Hpure. induction selectors as [|s rest IH]; intros allLoaded w.
  - cbn. rewrite andb_true_r. reflexivity.
  - destruct allLoaded; [|rewrite allLoaded_each_false; reflexivity].
    cbn [fold_left allLoaded_each forallb].
    pose proof (hasElement_pure self s w Hpure) as Hw.
    destruct (hasElement adapter self s w) as [present w1]; cbn [fst snd] in *.
    subst w1. rewrite IH. cbn [andb]. reflexivity.
Qed.

(** X3. When the element queries leave the world as it is, a pass is truthy
    exactly when every selector of the list is found in that world, and it
    leaves the world as it is. *)
Theorem allElementsLoaded_all_present :
  (forall context selector strategy w,
     snd (getElements_ adapter context selector strategy w) = w) ->
  forall self selectors (w : W),
    allElementsLoaded adapter self selectors w
    = (JBool (forallb (fun name => fst (hasElement adapter self name w)) selectors), w).
Proof.
  intros Hpure self selectors w. unfold allElementsLoaded.
  rewrite (allLoaded_pure self Hpure). reflexivity.
Qed.

End PassFacts.

Lemma allElementsLoaded_stops_at_first_absent_witness :
  fold_left (allLoaded_each Scenario.adapter (Scenario.page [])) ["header"]
    (true, Scenario.start) = (true, Scenario.start) /\
  fst (hasElement Scenario.adapter (Scenario.page []) "body" Scenario.start) = false /\
  allElementsLoaded Scenario.adapter (Scenario.page []) (["header"] ++ "body" :: ["header"])
    Scenario.start
  = (JBool false, snd (hasElement Scenario.adapter (Scenario.page []) "body" Scenario.start)).
Proof.
  split; [reflexivity|]. split; [reflexivity|].
  apply (allElementsLoaded_stops_at_first_absent Scenario.adapter (Scenario.page [])
           ["header"] "body" ["header"] Scenario.start Scenario.start); reflexivity.
Defined.

Lemma allElementsLoaded_all_present_witness :
  (forall context selector strategy w,
     snd (getElements_ Scenario.loaded context selector strategy w) = w) /\
  allElementsLoaded Scenario.loaded (Scenario.page []) ["header"; "body"] Scenario.start
  = (JBool (forallb (fun name => fst (hasElement Scenario.loaded (Scenario.page []) name
                                        Scenario.start)) ["header"; "body"]),
     Scenario.start).
Proof.
  split; [reflexivity|].
  apply (allElementsLoaded_all_present Scenario.loaded). reflexivity.
Defined.

(** ** Runs of [waitUntil] *)

Section RunFacts.

Context {W : Type} (now : W -> Z) (adapter : DriverAdapter W).

Lemma waitUntil_loop_return_last self fn message startTime timeOut waitInMs :
  forall fuel (w : W) value w' tr,
    waitUntil_loop now adapter self fn message startTime timeOut waitInMs fuel w
      = Some (Return value, w', tr) ->
    value = self /\
    exists earlier r, tr = (earlier ++ [EvCall r])%list /\ truthy r = true.
Proof.
  induction fuel as [|fuel IH]; intros w value w' tr Hrun; [discriminate|].
  rewrite waitUntil_loop_unfold in Hrun.
  destruct (fn w) as [r w1].
  destruct (truthy r) eqn:Hr; cbn [negb] in Hrun.
  - injection Hrun as <- _ <-. split; [reflexivity|].
    exists [], r. split; [reflexivity|exact Hr].
  - destruct (now w1 - startTime >=? timeOut); [discriminate|].
    destruct (waitUntil_loop now adapter self fn message startTime timeOut waitInMs
                fuel (sleep_ adapter waitInMs w1)) as [[[c w2] tr2]|] eqn:Hrec;
      [|discriminate].
    injection Hrun as -> _ <-.
    destruct (IH _ _ _ _ Hrec) as (Hself & earlier & r' & -> & Hr').
    split; [exact Hself|].
    exists (EvCall r :: EvNow (now w1) :: EvSleep waitInMs :: earlier), r'.
    split; [reflexivity|exact Hr'].
Qed.

(** X4. [waitUntil] returns normally only with the page object it was
    called on and only right after an evaluation of the predicate that was
    truthy: the last event of such a run is that evaluation, never a sleep
    or a clock check. *)
Theorem waitUntil_returns_after_truthy :
  forall self fn message timeOut waitInMs fuel (w : W) value w' tr,
    waitUntil now adapter self fn message timeOut waitInMs fuel w
      = Some (Return value, w', tr) ->
    value = self /\
    exists earlier r, tr = (earlier ++ [EvCall r])%list /\ truthy r = true.
Proof.
  intros self fn message timeOut waitInMs fuel w value w' tr. unfold waitUntil.
  destruct (fn w) as [r w0].
  destruct (truthy (and_then r (fun r => get r "then"))) eqn:Hthen.
  - intros [= <- _ <-]. split; [reflexivity|].
    exists [EvNow (now w)], r. split; [reflexivity|].
    unfold and_then in Hthen. destruct (truthy r) eqn:Hr; [reflexivity|].
    rewrite Hr in Hthen. congruence.
  - destruct (waitUntil_loop now adapter self fn message (now w) (or_int timeOut 10000)
                (or_int waitInMs 500) fuel w0) as [[[c w1] tr1]|] eqn:Hloop;
      [|discriminate].
    intros [= -> _ <-].
    destruct (waitUntil_loop_return_last _ _ _ _ _ _ _ _ _ _ _ Hloop)
      as (Hself & earlier & r' & -> & Hr').
    split; [exact Hself|].
    exists (EvNow (now w) :: EvCall r :: earlier), r'. split; [reflexivity|exact Hr'].
Qed.

Lemma waitUntil_loop_elapsed self fn message startTime timeOut waitInMs :
  (forall ms w, 0 < ms -> now (sleep_ adapter ms w) = now w + ms) ->
  instant now fn -> 0 < waitInMs ->
  forall fuel (w : W) c w' tr,
    waitUntil_loop now adapter self fn message startTime timeOut waitInMs fuel w
      = Some (c, w', tr) ->
    now w' - now w = waitInMs * Z.of_nat (sleeps tr) /\
    Forall (fun e => is_sleep e = true -> e = EvSleep waitInMs) tr.
Proof.
  intros Hsleep Hinstant Hpos.
  induction fuel as [|fuel IH]; intros w c w' tr Hrun; [discriminate|].
  rewrite waitUntil_loop_unfold in Hrun.
  pose proof (Hinstant w) as Hclock.
  destruct (fn w) as [r w1]; cbn [snd] in Hclock.
  destruct (negb (truthy r)).
  - destruct (now w1 - startTime >=? timeOut).
    + injection Hrun as _ <- <-. split; [cbn; lia|].
      repeat constructor; discriminate.
    + destruct (waitUntil_loop now adapter self fn message startTime timeOut waitInMs
                  fuel (sleep_ adapter waitInMs w1)) as [[[c2 w2] tr2]|] eqn:Hrec;
        [|discriminate].
      injection Hrun as _ <- <-.
      destruct (IH _ _ _ _ Hrec) as [Hrest Hall].
      rewrite Hsleep in Hrest by assumption. split.
      * unfold sleeps in *. cbn [List.filter is_sleep List.length]. lia.
      * repeat constructor; try discriminate. exact Hall.
  - injection Hrun as _ <- <-. split; [cbn; lia|].
    repeat constructor; discriminate.
Qed.

(** X5. On a clock that only the adapter's sleep advances, by the time asked
    for, a run of [waitUntil] that has stopped, with a return or with the
    time-out, took the poll interval times the number of its sleeps, and
    every one of its sleeps was for the poll interval. *)
Theorem waitUntil_elapsed_is_sleeps :
  (forall ms w, 0 < ms -> now (sleep_ adapter ms w) = now w + ms) ->
  forall self fn message timeOut waitInMs fuel (w : W) c w' tr,
    instant now fn -> 0 < or_int waitInMs 500 ->
    waitUntil now adapter self fn message timeOut waitInMs fuel w = Some (c, w', tr) ->
    now w' - now w = or_int waitInMs 500 * Z.of_nat (sleeps tr) /\
    Forall (fun e => is_sleep e = true -> e = EvSleep (or_int waitInMs 500)) tr.
Proof.
  intros Hsleep self fn message timeOut waitInMs fuel w c w' tr Hinstant Hpos.
  unfold waitUntil. pose proof (Hinstant w) as Hclock.
  destruct (fn w) as [r w0]; cbn [snd] in Hclock.
  destruct (truthy (and_then r (fun r => get r "then"))).
  - intros [= _ <- <-]. split; [cbn; lia|]. repeat constructor; discriminate.
  - destruct (waitUntil_loop now adapter self fn message (now w) (or_int timeOut 10000)
                (or_int waitInMs 500) fuel w0) as [[[c1 w1] tr1]|] eqn:Hloop;
      [|discriminate].
    intros [= _ <- <-].
    destruct (waitUntil_loop_elapsed _ _ _ _ _ _ Hsleep Hinstant Hpos _ _ _ _ _ Hloop)
      as [Hrest Hall].
    split.
    + unfold sleeps in *. cbn [List.filter is_sleep]. lia.
    + repeat constructor; try discriminate. exact Hall.
Qed.

(** The loop returns once the predicate is satisfied, at most one poll
    interval after the time [t0] from which it stays satisfied, provided
    [t0] is no later than the deadline. *)
Lemma waitUntil_loop_returns_when_ready self fn message startTime timeOut waitInMs t0 :
  (forall ms w, 0 < ms -> now (sleep_ adapter ms w) = now w + ms) ->
  instant now fn -> 0 < waitInMs ->
  (forall w, t0 <= now w -> truthy (fst (fn w)) = true) ->
  t0 - startTime <= timeOut ->
  forall (n : nat) (w : W),
    t0 - now w <= Z.of_nat n * waitInMs ->
    now w - startTime < Z.max 0 (t0 - startTime) + waitInMs ->
    exists w' tr,
      waitUntil_loop now adapter self fn message startTime timeOut waitInMs (S n) w
        = Some (Return self, w', tr) /\
      now w' - startTime < Z.max 0 (t0 - startTime) + waitInMs.
Proof.
  intros Hsleep Hinstant Hpos Hready Hintime.
  induction n as [|n IH]; intros w Hreach Hsoon;
    rewrite waitUntil_loop_unfold;
    pose proof (Hready w) as Hr; pose proof (Hinstant w) as Hclock;
    destruct (fn w) as [r w1]; cbn [fst snd] in Hr, Hclock.
  - rewrite Hr by lia. cbn [negb]. exists w1, [EvCall r]. split; [reflexivity|lia].
  - destruct (truthy r) eqn:Htruthy; cbn [negb].
    + exists w1, [EvCall r]. split; [reflexivity|lia].
    + assert (now w < t0) as Hearly
        by (destruct (Z_lt_le_dec (now w) t0) as [?|Hle];
            [assumption|pose proof (Hr Hle); congruence]).
      replace (now w1 - startTime >=? timeOut) with false
        by (symmetry; rewrite Z.geb_leb; apply Z.leb_gt; lia).
      destruct (IH (sleep_ adapter waitInMs w1)) as (w' & tr & Hrun & Hbound).
      * rewrite Hsleep by assumption. lia.
      * rewrite Hsleep by assumption. lia.
      * exists w', (EvCall r :: EvNow (now w1) :: EvSleep waitInMs :: tr).
        rewrite Hrun. split; [reflexivity|exact Hbound].
Qed.

(** X6. On such a clock, a predicate that takes no time, never answers with
    a thenable and stays satisfied from a time [t0] on that is no later than
    the deadline makes [waitUntil] return normally, less than one poll
    interval after [t0] (or after the call, when [t0] is earlier). *)
Theorem waitUntil_returns_when_ready :
  (forall ms w, 0 < ms -> now (sleep_ adapter ms w) = now w + ms) ->
  forall self fn message timeOut waitInMs t0 (w : W),
    instant now fn -> 0 < or_int waitInMs 500 ->
    (forall w, truthy (get (fst (fn w)) "then") = false) ->
    (forall w, t0 <= now w -> truthy (fst (fn w)) = true) ->
    t0 - now w <= or_int timeOut 10000 ->
    exists n w' tr,
      (forall fuel, (n <= fuel)%nat ->
         waitUntil now adapter self fn message timeOut waitInMs fuel w
           = Some (Return self, w', tr)) /\
      now w' - now w < Z.max 0 (t0 - now w) + or_int waitInMs 500.
Proof.
  intros Hsleep self fn message timeOut waitInMs t0 w Hinstant Hpos Hplain Hready Hintime.
  set (T := or_int timeOut 10000) in *. set (P := or_int waitInMs 500) in *.
  pose proof (Hinstant w) as Hclock. pose proof (Hplain w) as Hnothen.
  destruct (waitUntil_loop_returns_when_ready self fn message (now w) T P t0
              Hsleep Hinstant Hpos Hready Hintime
              (Z.to_nat (Z.max 0 (t0 - now w) / P + 1)) (snd (fn w)))
    as (w' & tr & Hrun & Hbound).
  - rewrite Hclock, Z2Nat.id
      by (pose proof (Z.div_pos (Z.max 0 (t0 - now w)) P); lia).
    pose proof (Z.div_mod (Z.max 0 (t0 - now w)) P).
    pose proof (Z.mod_pos_bound (Z.max 0 (t0 - now w)) P). nia.
  - rewrite Hclock. lia.
  - exists (S (Z.to_nat (Z.max 0 (t0 - now w) / P + 1))), w',
      (EvNow (now w) :: EvCall (fst (fn w)) :: tr).
    split; [|exact Hbound].
    intros fuel Hfuel. rewrite waitUntil_reevaluates.
    + fold T P.
      rewrite (waitUntil_loop_more_fuel now adapter _ _ _ _ _ _ _ _ _ Hrun fuel Hfuel).
      reflexivity.
    + unfold and_then. destruct (truthy (fst (fn w))) eqn:Hr; [exact Hnothen|exact Hr].
Qed.

(** X7. With a negative time-out, on a clock that does not run backwards
    while the predicate is evaluated, two falsy evaluations make
    [waitUntil] throw the time-out error at once: it never sleeps. *)
Theorem waitUntil_negative_timeout :
  forall self fn message (timeOut : Z) waitInMs fuel (w : W),
    timeOut < 0 ->
    truthy (fst (fn w)) = false ->
    truthy (fst (fn (snd (fn w)))) = false ->
    now w <= now (snd (fn (snd (fn w)))) ->
    waitUntil now adapter self fn message (Some timeOut) waitInMs (S fuel) w
    = Some (Throw (Error (timeout_message message)), snd (fn (snd (fn w))),
            [EvNow (now w); EvCall (fst (fn w)); EvCall (fst (fn (snd (fn w))));
             EvNow (now (snd (fn (snd (fn w)))))]).
Proof.
  intros self fn message timeOut waitInMs fuel w Hneg Hfirst Hsecond Hclock.
  rewrite waitUntil_reevaluates
    by (unfold and_then; rewrite Hfirst; exact Hfirst).
  rewrite waitUntil_loop_unfold.
  destruct (fn (snd (fn w))) as [r1 w1]; cbn [fst snd] in *.
  rewrite Hsecond. cbn [negb].
  assert (or_int (Some timeOut) 10000 = timeOut) as ->
    by (unfold or_int; destruct (Z.eqb_spec timeOut 0); [lia|reflexivity]).
  replace (now w1 - now w >=? timeOut) with true
    by (symmetry; rewrite Z.geb_leb; apply Z.leb_le; lia).
  reflexivity.
Qed.

(** X8. A time-out of [0] and a poll interval of [0] are the defaults, not
    "no wait": on the clock of X5, with a predicate that is never satisfied,
    [waitUntil(fn, message, 0, 0)] throws the time-out error only 10000 ms
    after the call, having slept twenty times. *)
Theorem waitUntil_zero_is_default :
  (forall ms w, 0 < ms -> now (sleep_ adapter ms w) = now w + ms) ->
  forall self fn message (w : W),
    never_truthy fn -> instant now fn ->
    exists n w' tr,
      times_out (fun fuel => waitUntil now adapter self fn message (Some 0) (Some 0) fuel w)
        message n w' tr /\
      now w' - now w = 10000 /\ sleeps tr = 20%nat.
Proof.
  intros Hsleep self fn message w Hnever Hinstant.
  destruct (waitUntil_times_out now adapter self fn message (Some 0) (Some 0) w
              Hsleep Hnever Hinstant) as (n & w' & tr & Hrun & _ & Hbounds);
    [reflexivity|reflexivity|].
  exists n, w', (EvNow (now w) :: EvCall (fst (fn w)) :: tr).
  split; [exact Hrun|].
  destruct (waitUntil_elapsed_is_sleeps Hsleep self fn message (Some 0) (Some 0) n w
              _ w' _ Hinstant eq_refl (Hrun n (Nat.le_refl n))) as [Helapsed _].
  cbn [or_int Z.eqb] in Hbounds, Helapsed. lia.
Qed.

End RunFacts.

Lemma Scenario_sleep_exact :
  forall ms w, 0 < ms ->
    Scenario.time (sleep_ Scenario.adapter ms w) = Scenario.time w + ms.
Proof. intros ms w Hms. reflexivity. Qed.

Lemma Scenario_ready_at_instant t0 : instant Scenario.time (Scenario.ready_at t0).
Proof. intros w. reflexivity. Qed.

Lemma waitUntil_returns_after_truthy_witness :
  exists value w' tr,
    waitUntil Scenario.time Scenario.adapter (Scenario.page []) (Scenario.ready_at 100)
      "ready" (Some 200) (Some 50) 10 Scenario.start = Some (Return value, w', tr) /\
    value = Scenario.page [] /\
    exists earlier r, tr = (earlier ++ [EvCall r])%list /\ truthy r = true.
Proof.
  eexists _, _, _. split; [reflexivity|].
  eapply (waitUntil_returns_after_truthy Scenario.time Scenario.adapter (Scenario.page [])
            (Scenario.ready_at 100) "ready" (Some 200) (Some 50) 10 Scenario.start).
  reflexivity.
Defined.

Lemma waitUntil_elapsed_is_sleeps_witness :
  exists c w' tr,
    waitUntil Scenario.time Scenario.adapter (Scenario.page []) (Scenario.ready_at 100)
      "ready" (Some 200) (Some 50) 10 Scenario.start = Some (c, w', tr) /\
    Scenario.time w' - 0 = 50 * Z.of_nat (sleeps tr) /\
    Forall (fun e => is_sleep e = true -> e = EvSleep 50) tr.
Proof.
  eexists _, _, _. split; [reflexivity|].
  eapply (waitUntil_elapsed_is_sleeps Scenario.time Scenario.adapter Scenario_sleep_exact
            (Scenario.page []) (Scenario.ready_at 100) "ready" (Some 200) (Some 50) 10
            Scenario.start).
  - exact (Scenario_ready_at_instant 100).
  - reflexivity.
  - reflexivity.
Defined.

Lemma waitUntil_returns_when_ready_witness :
  exists n w' tr,
    (forall fuel, (n <= fuel)%nat ->
       waitUntil Scenario.time Scenario.adapter (Scenario.page []) (Scenario.ready_at 120)
         "ready" (Some 200) (Some 50) fuel Scenario.start
       = Some (Return (Scenario.page []), w', tr)) /\
    Scenario.time w' - 0 < Z.max 0 (120 - 0) + 50.
Proof.
  apply (waitUntil_returns_when_ready Scenario.time Scenario.adapter Scenario_sleep_exact
           (Scenario.page []) (Scenario.ready_at 120) "ready" (Some 200) (Some 50) 120
           Scenario.start).
  - exact (Scenario_ready_at_instant 120).
  - reflexivity.
  - intros w. reflexivity.
  - intros w Hw. apply Z.leb_le. exact Hw.
  - cbn. lia.
Defined.

Lemma waitUntil_negative_timeout_witness :
  waitUntil Scenario.time Scenario.adapter (Scenario.page []) (Scenario.ready_at 100)
    "ready" (Some (-1)) (Some 50) 1 Scenario.start
  = Some (Throw (Error (timeout_message "ready")),
          {| Scenario.time := 0; Scenario.calls := 2 |},
          [EvNow 0; EvCall (JBool false); EvCall (JBool false); EvNow 0]).
Proof.
  apply (waitUntil_negative_timeout Scenario.time Scenario.adapter (Scenario.page [])
           (Scenario.ready_at 100) "ready" (-1) (Some 50) 0 Scenario.start).
  - lia.
  - reflexivity.
  - reflexivity.
  - cbn. lia.
Defined.

Lemma waitUntil_zero_is_default_witness :
  exists n w' tr,
    times_out
      (fun fuel => waitUntil Scenario.time Scenario.adapter (Scenario.page [])
                     (fun w => (JBool false, Scenario.tick w)) "ready" (Some 0) (Some 0)
                     fuel Scenario.start)
      "ready" n w' tr /\
    Scenario.time w' - 0 = 10000 /\ sleeps tr = 20%nat.
Proof.
  apply (waitUntil_zero_is_default Scenario.time Scenario.adapter Scenario_sleep_exact
           (Scenario.page []) (fun w => (JBool false, Scenario.tick w)) "ready"
           Scenario.start).
  - intros w. reflexivity.
  - intros w. reflexivity.
Defined.

(** ** The selector table and the load selectors *)

(** What an empty place of the table shows: the inherited names are
    truthy, every other name is [undefined]. *)
Lemma Object_prototype_truthy (name : string) :
  truthy (Object_prototype name) = true <-> In name Object_prototype_names.
Proof.
  unfold Object_prototype.
  destruct (String.eqb_spec name "__proto__") as [->|Hne].
  - split; [intros _|reflexivity]. cbn. tauto.
  - destruct (existsb (String.eqb name) Object_prototype_names) eqn:Hin.
    + split; [intros _|reflexivity].
      apply existsb_exists in Hin. destruct Hin as (k & Hk & Heq).
      apply String.eqb_eq in Heq. subst k. exact Hk.
    + split; [discriminate|]. intros Hk.
      assert (existsb (String.eqb name) Object_prototype_names = true) as Hyes
        by (apply existsb_exists; exists name; split;
            [exact Hk|apply String.eqb_refl]).
      congruence.
Qed.

(** X9. On a table that is an object literal, [hasSelector] answers yes
    exactly for the names the table maps to a selector that is not the empty
    string and for the names it has no entry for but inherits from
    [Object.prototype], such as [toString]: a name mapped to the empty
    string counts as missing although [getSelector] returns its entry, and
    an inherited name counts as present although the table has no selector
    for it.  After [setSelectors] both look in the new table only, and the
    load selectors registered before are kept as they are. *)
Theorem hasSelector_nonempty_entry :
  forall self name,
    (hasSelector self name = true <->
     (exists s, getSelectors self !! name = Some s /\ s <> "") \/
     (getSelectors self !! name = None /\ In name Object_prototype_names)) /\
    (getSelectors self !! "toString" = None ->
     hasSelector self "toString" = true /\ getSelector self "toString" = JFunction) /\
    (forall table,
       getSelector (setSelectors self table) name =
         match table !! name with
         | Some s => JString s
         | None => Object_prototype name
         end /\
       (hasSelector (setSelectors self (<[name := ""]> table)) name = false /\
        getSelector (setSelectors self (<[name := ""]> table)) name = JString "") /\
       _loadSelectors (setSelectors self table) = _loadSelectors self).
Proof.
  intros self name. split; [|split].
  - unfold hasSelector.
    destruct (getSelectors self !! name) as [s|].
    + cbn [truthy]. rewrite negb_true_iff. split.
      * intros Hne. left. exists s. split; [reflexivity|].
        intros ->. discriminate.
      * intros [(s' & [= <-] & Hne)|[Hnone _]]; [|discriminate].
        apply String.eqb_neq. exact Hne.
    + rewrite Object_prototype_truthy. split.
      * intros Hin. right. split; [reflexivity|exact Hin].
      * intros [(s & Hs & _)|[_ Hin]]; [discriminate|exact Hin].
  - intros Hnone. unfold hasSelector, getSelector. rewrite Hnone.
    split; reflexivity.
  - intros table. split; [reflexivity|]. split; [|reflexivity].
    unfold hasSelector, getSelector, getSelectors, setSelectors; cbn.
    rewrite lookup_insert_eq. split; reflexivity.
Qed.

Lemma hasSelector_nonempty_entry_witness :
  hasSelector (Scenario.page []) "toString" = true /\
  getSelector (Scenario.page []) "toString" = JFunction.
Proof.
  apply (proj1 (proj2 (hasSelector_nonempty_entry (Scenario.page []) "toString"))).
  reflexivity.
Defined.

(** X10. [addLoadSelectors] registers the names in the order given, behind
    the ones registered before and with repetitions kept, without looking
    at the table and without changing it or the context; registering a list
    in two parts is registering it at once. *)
Theorem addLoadSelectors_appends :
  forall self names more,
    (exists self',
       addLoadSelectors self names = Return self' /\
       _loadSelectors self' = (_loadSelectors self ++ names)%list /\
       _selectors self' = _selectors self /\
       _context self' = _context self) /\
    addLoadSelectors self (names ++ more) =
    match addLoadSelectors self names with
    | Return self' => addLoadSelectors self' more
    | Throw e => Throw e
    end.
Proof.
  intros self names more. split.
  - revert self. induction names as [|s rest IH]; intros self.
    + exists self. cbn. rewrite app_nil_r. repeat split.
    + destruct (IH (push_loadSelector self s)) as (self' & Hrun & Hlist & Htable & Hctx).
      exists self'. cbn [addLoadSelectors addLoadSelector hasSelector_property truthy negb].
      split; [exact Hrun|].
      rewrite Hlist, Htable, Hctx. cbn. rewrite <- app_assoc. repeat split.
  - revert self. induction names as [|s rest IH]; intros self; [reflexivity|].
    cbn [app addLoadSelectors addLoadSelector hasSelector_property truthy negb].
    apply IH.
Qed.

(** ** The static settings *)

Lemma truthy_or_else (a b : option string) :
  truthy_string (or_else a b) = truthy_string a || truthy_string b.
Proof.
  unfold or_else. destruct (truthy_string a) eqn:Ha; [rewrite Ha|]; reflexivity.
Qed.

(** X11. A setting is the value of the class when that is a nonempty
    string, else the global value when that is one, else whatever the
    environment has: an empty string does not override the next level, and
    the setting is usable exactly when one of the three is. *)
Theorem settings_precedence :
  forall cfg,
    (truthy_string (class_SCREENSHOT_PREFIX cfg) = true ->
     getScreenshotPrefix cfg = class_SCREENSHOT_PREFIX cfg) /\
    (truthy_string (class_SCREENSHOT_PREFIX cfg) = false ->
     truthy_string (global_SCREENSHOT_PREFIX cfg) = true ->
     getScreenshotPrefix cfg = global_SCREENSHOT_PREFIX cfg) /\
    (truthy_string (class_SCREENSHOT_PREFIX cfg) = false ->
     truthy_string (global_SCREENSHOT_PREFIX cfg) = false ->
     getScreenshotPrefix cfg = env_SCREENSHOT_PREFIX cfg) /\
    truthy_string (getScreenshotPrefix cfg)
      = truthy_string (class_SCREENSHOT_PREFIX cfg)
        || truthy_string (global_SCREENSHOT_PREFIX cfg)
        || truthy_string (env_SCREENSHOT_PREFIX cfg) /\
    truthy_string (getScreenshotPath cfg)
      = truthy_string (class_SCREENSHOT_PATH cfg)
        || truthy_string (global_SCREENSHOT_PATH cfg)
        || truthy_string (env_SCREENSHOT_PATH cfg).
Proof.
  intros cfg. unfold getScreenshotPrefix, getScreenshotPath.
  repeat split; rewrite ?truthy_or_else; try reflexivity; unfold or_else.
  - intros Hc. rewrite Hc. cbn match. rewrite Hc. reflexivity.
  - intros Hc Hg. rewrite Hc. cbn match. rewrite Hg. reflexivity.
  - intros Hc Hg. rewrite Hc. cbn match. rewrite Hg. reflexivity.
Qed.

Lemma settings_precedence_witness :
  let cfg := {| class_SCREENSHOT_PATH := None;
                global_SCREENSHOT_PATH := None;
                env_SCREENSHOT_PATH := Some "out";
                class_SCREENSHOT_PREFIX := Some "";
                global_SCREENSHOT_PREFIX := Some "suite1";
                env_SCREENSHOT_PREFIX := Some "env" |} in
  getScreenshotPrefix cfg = Some "suite1".
Proof.
  intros cfg.
  apply (proj1 (proj2 (settings_precedence cfg))); reflexivity.
Defined.

(** ** More on the composition *)

Section CoverFacts.

Context {Image : Type} `{PNGImageLaws Image}.

(** Two black-out lists that cover the same pixels give the same output. *)
Lemma compose_same_cover (image : Image) (frame : Rect) (l l' : list Rect) :
  (forall i j, existsb (fun r => in_rect r i j) l = existsb (fun r => in_rect r i j) l') ->
  pixel_identical (compose image l frame) (compose image l' frame).
Proof.
  intros Hcover. apply clip_to_frame_identical.
  intros i j. rewrite !getPixel_fill_blackOuts, Hcover. reflexivity.
Qed.

(** X13. The fills neither add nor remove a pixel, and they leave every
    pixel that no rectangle of the list covers as it was in the screenshot;
    the pixels that one covers are the opaque black. *)
Theorem fill_blackOuts_only_covered :
  forall (image : Image) (blackOutList : list Rect) i j,
    (getPixel (fill_blackOuts blackOutList image) i j = None <->
     getPixel image i j = None) /\
    (existsb (fun r => in_rect r i j) blackOutList = false ->
     getPixel (fill_blackOuts blackOutList image) i j = getPixel image i j) /\
    (existsb (fun r => in_rect r i j) blackOutList = true ->
     forall p, getPixel (fill_blackOuts blackOutList image) i j = Some p ->
               p = {| red := 0; green := 0; blue := 0; alpha := 255 |}).
Proof.
  intros image l i j. rewrite getPixel_fill_blackOuts.
  destruct (getPixel image i j) as [p0|],
    (existsb (fun r => in_rect r i j) l);
    repeat split; intros; try discriminate; try reflexivity;
    match goal with Hp : Some _ = Some _ |- _ => injection Hp as <- end;
    reflexivity.
Qed.

(** X14. A black-out rectangle whose width or height is zero or negative
    paints nothing: the output is the one of the list without it. *)
Theorem compose_degenerate_blackOut :
  forall (image : Image) (frame : Rect) before r after,
    width r <= 0 \/ height r <= 0 ->
    pixel_identical (compose image (before ++ r :: after) frame)
                    (compose image (before ++ after) frame).
Proof.
  intros image frame before r after Hempty. apply compose_same_cover.
  intros i j. rewrite !existsb_app. cbn [existsb].
  replace (in_rect r i j) with false; [reflexivity|].
  symmetry. unfold in_rect, covers.
  rewrite !andb_false_iff, !Z.leb_gt, !Z.ltb_ge. lia.
Qed.

(** X15. Blacking out is idempotent: a list that names its rectangles twice
    gives the output of the list that names them once, and fills applied to
    an image that has them already change nothing. *)
Theorem compose_blackOut_twice :
  forall (image : Image) (frame : Rect) (blackOutList : list Rect),
    pixel_identical (compose image (blackOutList ++ blackOutList) frame)
                    (compose image blackOutList frame) /\
    pixel_identical (fill_blackOuts blackOutList (fill_blackOuts blackOutList image))
                    (fill_blackOuts blackOutList image).
Proof.
  intros image frame l. split.
  - apply compose_same_cover. intros i j. rewrite existsb_app.
    destruct (existsb (fun r => in_rect r i j) l); reflexivity.
  - intros i j. rewrite !getPixel_fill_blackOuts.
    destruct (getPixel image i j) as [p|]; [|reflexivity].
    destruct (existsb (fun r => in_rect r i j) l); reflexivity.
Qed.

End CoverFacts.

Lemma fill_blackOuts_only_covered_witness :
  let r := {| x := 0; y := 0; width := 5; height := 5 |} in
  existsb (fun r => in_rect r 7 7) [r] = false /\
  getPixel (fill_blackOuts [r] Scenario.screenshot) 7 7 = getPixel Scenario.screenshot 7 7.
Proof.
  intros r. split; [reflexivity|].
  apply (proj1 (proj2 (fill_blackOuts_only_covered Scenario.screenshot [r] 7 7))).
  reflexivity.
Defined.

Lemma compose_degenerate_blackOut_witness :
  let r := {| x := 3; y := 3; width := 0; height := 40 |} in
  let frame := {| x := 10; y := 10; width := 100; height := 50 |} in
  (width r <= 0 \/ height r <= 0) /\
  pixel_identical (compose Scenario.screenshot ([] ++ r :: []) frame)
                  (compose Scenario.screenshot ([] ++ []) frame).
Proof.
  intros r frame. split; [left; cbn; lia|].
  apply (compose_degenerate_blackOut Scenario.screenshot frame [] r []).
  left. cbn. lia.
Defined.

Lemma compose_blackOut_twice_witness :
  let r := {| x := 0; y := 0; width := 5; height := 5 |} in
  pixel_identical (compose Scenario.screenshot ([r] ++ [r]) zeroRect)
                  (compose Scenario.screenshot [r] zeroRect).
Proof.
  intros r. apply (proj1 (compose_blackOut_twice Scenario.screenshot zeroRect [r])).
Defined.

(** ** More on [capture] *)

Section CaptureFacts.

Context {W Image : Type} `{PNGImage Image}.

(** X12. A capture ends in exactly one of three ways: the promise is
    fulfilled with the page object, nothing was thrown and the file holds
    the composed image; or the promise is rejected with what [loadImage]
    threw, nothing else was thrown and no file is written; or the promise
    stays pending, one error was thrown out of a callback and no file is
    written. *)
Theorem capture_executor_endings :
  forall (codec : Codec Image) self buffer path blackOutList frame,
    let result := capture_executor codec self buffer path blackOutList frame in
    (exists decoded,
       loadImage codec buffer = CallbackOk decoded /\
       result = mkCaptureResult (Fulfilled self) []
                  (Some (path, compose decoded blackOutList frame))) \/
    (exists e,
       loadImage codec buffer = Throws e /\
       result = mkCaptureResult (Rejected e) [] None) \/
    (exists e, result = mkCaptureResult Pending [e] None).
Proof.
  intros codec self buffer path l frame.
  unfold capture_executor, loadImage_callback, writeImage_callback.
  destruct (loadImage codec buffer) as [e|e|decoded].
  - right; left. exists e. split; reflexivity.
  - right; right. exists e. reflexivity.
  - destruct (writeImage codec path (compose decoded l frame)) as [e|e|[]].
    + right; right. exists e. reflexivity.
    + right; right. exists e. reflexivity.
    + left. exists decoded. split; reflexivity.
Qed.

(** X16. A context whose frame has a zero width or a zero height is not
    clipped to: the file [capture] writes holds the decoded screenshot with
    the fills only. *)
Theorem capture_flat_frame_not_clipped :
  forall (adapter : DriverAdapter W) (codec : Codec Image) helpers cfg self
         title id wait additionalBlackOuts (w : W) frame file image,
    elem_getFrame (getContext self) = Some frame ->
    width frame = 0 \/ height frame = 0 ->
    written (fst (capture adapter codec helpers cfg self title id wait
                    additionalBlackOuts w)) = Some (file, image) ->
    exists decoded,
      loadImage codec (fst (takeScreenshot_ adapter (sleep_ adapter (or_int wait 1000) w)))
        = CallbackOk decoded /\
      image = fill_blackOuts (map resolve_entry (or_list additionalBlackOuts)) decoded.
Proof.
  intros adapter codec helpers cfg self title id wait additionalBlackOuts w frame
    file image Hframe Hflat.
  unfold capture, getFrame. rewrite Hframe.
  destruct (takeScreenshot_ adapter (sleep_ adapter (or_int wait 1000) w))
    as [buffer w3]; cbn [fst].
  intros Hwritten.
  destruct (capture_executor_written _ _ _ _ _ _ _ _ Hwritten)
    as (decoded & Hload & _ & ->).
  exists decoded. split; [exact Hload|].
  unfold compose, clip_to_frame, clips.
  destruct Hflat as [-> | ->]; cbn [Z.eqb negb andb]; [reflexivity|].
  rewrite andb_false_r. reflexivity.
Qed.

(** X17. The file of a capture depends on the title, the id and the
    settings only, and an id left out, an empty id and the id [1] are the
    same id: two captures of the same title that differ in this way, on any
    page objects, in any worlds, write to the same path. *)
Theorem capture_same_file :
  forall (adapter adapter' : DriverAdapter W) (codec codec' : Codec Image) helpers cfg
         self self' title id id' wait wait' additional additional' (w w' : W)
         file file' image image',
    or_string id "1" = or_string id' "1" ->
    written (fst (capture adapter codec helpers cfg self title id wait additional w))
      = Some (file, image) ->
    written (fst (capture adapter' codec' helpers cfg self' title id' wait' additional' w'))
      = Some (file', image') ->
    file = file' /\
    file = nodePath_join helpers (getScreenshotPath cfg)
             (capture_fileName helpers (getScreenshotPrefix cfg) title id).
Proof.
  intros adapter adapter' codec codec' helpers cfg self self' title id id' wait wait'
    additional additional' w w' file file' image image' Hid.
  unfold capture.
  destruct (getFrame adapter self None (sleep_ adapter (or_int wait 1000) w))
    as [frame w2].
  destruct (takeScreenshot_ adapter w2) as [buffer w3].
  destruct (getFrame adapter' self' None (sleep_ adapter' (or_int wait' 1000) w'))
    as [frame' w2'].
  destruct (takeScreenshot_ adapter' w2') as [buffer' w3']. cbn [fst].
  intros Hwritten Hwritten'.
  destruct (capture_executor_written _ _ _ _ _ _ _ _ Hwritten) as (_ & _ & -> & _).
  destruct (capture_executor_written _ _ _ _ _ _ _ _ Hwritten') as (_ & _ & -> & _).
  split; [|reflexivity].
  unfold capture_fileName. rewrite Hid. reflexivity.
Qed.

End CaptureFacts.

Lemma capture_flat_frame_not_clipped_witness :
  let flat := {| _context := {| elem_id := 2;
                                elem_getFrame := Some {| x := 10; y := 10;
                                                         width := 100; height := 0 |} |};
                 _loadSelectors := []; _selectors := ∅ |} in
  exists decoded,
    loadImage Scenario.codec
      (fst (takeScreenshot_ Scenario.adapter
              (sleep_ Scenario.adapter (or_int None 1000) Scenario.start)))
      = CallbackOk decoded /\
    Scenario.screenshot = fill_blackOuts (map resolve_entry (or_list None)) decoded.
Proof.
  intros flat.
  apply (capture_flat_frame_not_clipped Scenario.adapter Scenario.codec Scenario.helpers
           Scenario.settings flat "Login Test" None None None Scenario.start
           {| x := 10; y := 10; width := 100; height := 0 |}
           "shots/suite1_Login_Test_1.png" Scenario.screenshot).
  - reflexivity.
  - right. reflexivity.
  - reflexivity.
Defined.

Lemma capture_same_file_witness :
  "shots/suite1_Login_Test_1.png" = "shots/suite1_Login_Test_1.png" /\
  "shots/suite1_Login_Test_1.png"
  = nodePath_join Scenario.helpers (getScreenshotPath Scenario.settings)
      (capture_fileName Scenario.helpers (getScreenshotPrefix Scenario.settings)
         "Login Test" None).
Proof.
  apply (capture_same_file Scenario.adapter Scenario.loaded Scenario.codec Scenario.codec
           Scenario.helpers Scenario.settings (Scenario.page []) Scenario.framed_page
           "Login Test" None (Some "1") None (Some 5) None None
           Scenario.start Scenario.start
           "shots/suite1_Login_Test_1.png" "shots/suite1_Login_Test_1.png"
           Scenario.screenshot (clip 10 10 100 50 Scenario.screenshot));
    reflexivity.
Defined.

(** ** Service requests *)

Import Service.

(** The codes [Math.floor(statusCode / 200) === 2] singles out. *)
Lemma is_failure_code_range (code : Z) :
  is_failure_code code = true <-> 400 <= code < 600.
Proof.
  unfold is_failure_code. rewrite Z.eqb_eq.
  pose proof (Z.div_mod code 200). pose proof (Z.mod_pos_bound code 200). lia.
Qed.

(** X18. When the request reports no error and hands over a response, the
    promise of [sendRequest] is rejected exactly for the status codes from
    400 to 599, with the error made from the request and the response; for
    every other code, also the ones below 200 and from 600 on, it is
    resolved with the response data. *)
Theorem sendRequest_status_codes :
  forall tools self method url data response,
    let reply := _request self {| opt_method := method;
                                  opt_url := combine tools "/" (_baseUrl self) url;
                                  opt_json := data |} in
    reply_err reply = None ->
    reply_response reply = Some response ->
    (400 <= statusCode response < 600 ->
     sendRequest tools self method url data
       = Rejects (Error (failure_message tools method url data response))) /\
    (~ 400 <= statusCode response < 600 ->
     sendRequest tools self method url data = Resolves (reply_data reply)).
Proof.
  intros tools self method url data response reply Herr Hresponse.
  unfold sendRequest, sendRequest_callback. fold reply. rewrite Herr, Hresponse.
  pose proof (is_failure_code_range (statusCode response)) as Hrange.
  destruct (is_failure_code (statusCode response)); split; intros Hcode.
  - reflexivity.
  - exfalso. apply Hcode, Hrange. reflexivity.
  - apply Hrange in Hcode. discriminate.
  - reflexivity.
Qed.

(** X19. The callback of [sendRequest] reads the body of the response
    before it looks at the error: without a response object it throws
    before the promise is settled, also when the request reported an error;
    with one, a reported error is what the promise is rejected with,
    whatever the status code.  The promise is resolved only with the
    response data of a reply without error. *)
Theorem sendRequest_callback_endings :
  forall tools method url data reply,
    (sendRequest_callback tools method url data reply = ThrowsTypeError <->
     reply_response reply = None) /\
    (forall err response,
       reply_err reply = Some err -> reply_response reply = Some response ->
       sendRequest_callback tools method url data reply = Rejects err) /\
    (forall value,
       sendRequest_callback tools method url data reply = Resolves value ->
       value = reply_data reply /\ reply_err reply = None /\
       exists response,
         reply_response reply = Some response /\ ~ 400 <= statusCode response < 600).
Proof.
  intros tools method url data reply. unfold sendRequest_callback.
  destruct (reply_response reply) as [response|]; (split; [|split]).
  - split; [|discriminate].
    destruct (reply_err reply), (is_failure_code (statusCode response)); discriminate.
  - intros err response' -> _. reflexivity.
  - intros value.
    destruct (reply_err reply); [discriminate|].
    destruct (is_failure_code (statusCode response)) eqn:Hcode; [discriminate|].
    intros [= <-]. split; [reflexivity|]. split; [reflexivity|].
    exists response. split; [reflexivity|].
    intros Hrange. apply is_failure_code_range in Hrange. congruence.
  - split; reflexivity.
  - intros err response _ Hresponse. discriminate.
  - intros value Hresolved. discriminate.
Qed.

Lemma sendRequest_status_codes_witness :
  sendRequest plain_tools (server 404) "GET" "users" JNull
    = Rejects (Error (failure_message plain_tools "GET" "users" JNull
                        {| statusCode := 404; body := BodyString "ok" |})) /\
  sendRequest plain_tools (server 302) "GET" "users" JNull = Resolves (JString "ok") /\
  sendRequest plain_tools (server 600) "GET" "users" JNull = Resolves (JString "ok").
Proof.
  split; [|split].
  - apply (proj1 (sendRequest_status_codes plain_tools (server 404) "GET" "users" JNull
                    {| statusCode := 404; body := BodyString "ok" |} eq_refl eq_refl)).
    cbn. lia.
  - apply (proj2 (sendRequest_status_codes plain_tools (server 302) "GET" "users" JNull
                    {| statusCode := 302; body := BodyString "ok" |} eq_refl eq_refl)).
    cbn. lia.
  - apply (proj2 (sendRequest_status_codes plain_tools (server 600) "GET" "users" JNull
                    {| statusCode := 600; body := BodyString "ok" |} eq_refl eq_refl)).
    cbn. lia.
Defined.

Lemma sendRequest_callback_endings_witness :
  let reply := {| reply_err := Some (Error "ECONNREFUSED");
                  reply_response := None;
                  reply_data := JUndefined |} in
  sendRequest_callback plain_tools "GET" "users" JNull reply = ThrowsTypeError.
Proof.
  intros reply.
  apply (proj1 (sendRequest_callback_endings plain_tools "GET" "users" JNull reply)).
  reflexivity.
Defined.

(** The text of a rejection, for a request that is not found. *)
Example sendRequest_not_found_message :
  failure_message plain_tools "GET" "users" JNull
    {| statusCode := 404; body := BodyString "no" |}
  = ("Request for " ++ quoted "users" ++ " with method " ++ quoted "GET"
     ++ " and data " ++ quoted "{}" ++ "; received code " ++ quoted "404"
     ++ " with body " ++ quoted "no")%string.
Proof. reflexivity. Qed.
